(** * prefixdb: a key-space partitioning layer over a shared key-value store

    Shallow embedding of [database/prefixdb/db.go] and a verification of
    the properties its specification states.

    The Go objects ([*Database], the wrapped [database.Database], the
    underlying batches and iterators) are mutable and shared.  They are
    modelled by an explicit world: a heap of [Database] structs addressed by
    pointer, next to the state of the wrapped stores, which is opaque.  Every
    method is a computation in a small state monad that can also panic (a
    method call on a nil interface, a nil receiver). *)

From Stdlib Require Import ZArith List Lia Bool String.
From Stdlib Require Import Strings.Byte.
From stdpp Require Import base list relations.
Import ListNotations.

(** ** Bytes *)

Definition bytes := list byte.

#[global] Instance byte_eq_dec : EqDecision byte := Byte.byte_eq_dec.

Definition byte_of_Z (z : Z) : byte :=
  match Byte.of_N (Z.to_N (z mod 256)) with
  | Some b => b
  | None => x00
  end.

Definition Z_of_byte (b : byte) : Z := Z.of_N (Byte.to_N b).

Definition bytes_of_string (s : string) : bytes := list_byte_of_string s.

(** ** hashing.ComputeHash256 *)

Module SHA256.
Local Open Scope Z_scope.

Definition wrap32 (x : Z) : Z := x mod 2 ^ 32.
Definition add32 (x y : Z) : Z := wrap32 (x + y).
Definition rotr (n x : Z) : Z :=
  Z.lor (Z.shiftr x n) (wrap32 (Z.shiftl x (32 - n))).
Definition not32 (x : Z) : Z := Z.lxor x 0xffffffff.

Definition Ch (x y z : Z) : Z := Z.lxor (Z.land x y) (Z.land (not32 x) z).
Definition Maj (x y z : Z) : Z :=
  Z.lxor (Z.lxor (Z.land x y) (Z.land x z)) (Z.land y z).
Definition Sigma0 (x : Z) : Z :=
  Z.lxor (Z.lxor (rotr 2 x) (rotr 13 x)) (rotr 22 x).
Definition Sigma1 (x : Z) : Z :=
  Z.lxor (Z.lxor (rotr 6 x) (rotr 11 x)) (rotr 25 x).
Definition sigma0 (x : Z) : Z :=
  Z.lxor (Z.lxor (rotr 7 x) (rotr 18 x)) (Z.shiftr x 3).
Definition sigma1 (x : Z) : Z :=
  Z.lxor (Z.lxor (rotr 17 x) (rotr 19 x)) (Z.shiftr x 10).

(** The round constants are the first 32 bits of the fractional parts of
    the cube roots of the first 64 primes; the initial chaining value takes
    the square roots of the first 8. *)
Definition prime (n : Z) : bool :=
  forallb (fun d => negb (n mod d =? 0)) (map Z.of_nat (seq 2 (Z.to_nat n - 2))).

Definition primes : list Z :=
  filter (fun n => prime n = true) (map Z.of_nat (seq 2 310)).

(** The integer cube root, one bit at a time from bit [bits - 1] down. *)
Fixpoint icbrt (bits : nat) (n r : Z) : Z :=
  match bits with
  | O => r
  | S b =>
      let c := r + 2 ^ Z.of_nat b in
      icbrt b n (if c * c * c <=? n then c else r)
  end.

Definition frac_cbrt (p : Z) : Z := wrap32 (icbrt 36 (p * 2 ^ 96) 0).
Definition frac_sqrt (p : Z) : Z := wrap32 (Z.sqrt (p * 2 ^ 64)).

Definition K : list Z := map frac_cbrt primes.

(** The eight working variables a..h, also the chaining value. *)
Record regs := Regs { ra : Z; rb : Z; rc : Z; rd : Z;
                      re : Z; rf : Z; rg : Z; rh : Z }.

Definition H0 : regs :=
  let h i := frac_sqrt (nth i primes 0) in
  Regs (h 0%nat) (h 1%nat) (h 2%nat) (h 3%nat)
       (h 4%nat) (h 5%nat) (h 6%nat) (h 7%nat).

Definition round (r : regs) (k w : Z) : regs :=
  let t1 := add32 (add32 (add32 (add32 (rh r) (Sigma1 (re r)))
                                (Ch (re r) (rf r) (rg r))) k) w in
  let t2 := add32 (Sigma0 (ra r)) (Maj (ra r) (rb r) (rc r)) in
  Regs (add32 t1 t2) (ra r) (rb r) (rc r) (add32 (rd r) t1) (re r) (rf r) (rg r).

(** The message schedule is kept as a window of the sixteen words
    W(t) .. W(t+15); [slide] drops W(t) and appends W(t+16). *)
Definition slide (win : list Z) : list Z :=
  let w i := nth i win 0 in
  tl win ++ [add32 (add32 (add32 (sigma1 (w 14%nat)) (w 9%nat))
                          (sigma0 (w 1%nat))) (w 0%nat)].

Fixpoint rounds (ks : list Z) (win : list Z) (r : regs) : regs :=
  match ks with
  | [] => r
  | k :: ks' => rounds ks' (slide win) (round r k (nth 0 win 0))
  end.

Definition compress (h : regs) (block : list Z) : regs :=
  let r := rounds K block h in
  Regs (add32 (ra h) (ra r)) (add32 (rb h) (rb r))
       (add32 (rc h) (rc r)) (add32 (rd h) (rd r))
       (add32 (re h) (re r)) (add32 (rf h) (rf r))
       (add32 (rg h) (rg r)) (add32 (rh h) (rh r)).

(** Big-endian words out of bytes, four at a time. *)
Fixpoint words (bs : list Z) : list Z :=
  match bs with
  | b0 :: b1 :: b2 :: b3 :: rest =>
      (Z.lor (Z.shiftl b0 24)
             (Z.lor (Z.shiftl b1 16) (Z.lor (Z.shiftl b2 8) b3)))
        :: words rest
  | _ => []
  end.

Definition word_bytes (w : Z) : bytes :=
  [ byte_of_Z (Z.shiftr w 24); byte_of_Z (Z.shiftr w 16);
    byte_of_Z (Z.shiftr w 8); byte_of_Z w ].

(** Padding: a one bit, zeros up to 56 mod 64, the bit length on 64 bits. *)
Definition pad (msg : list Z) : list Z :=
  let n := Z.of_nat (length msg) in
  let zeros := Z.to_nat ((55 - n) mod 64) in
  let bits := 8 * n in
  msg ++ [0x80] ++ repeat 0 zeros
      ++ map (fun i => Z.shiftr bits (8 * i) mod 256) [7; 6; 5; 4; 3; 2; 1; 0].

Fixpoint blocks (fuel : nat) (ws : list Z) (h : regs) : regs :=
  match fuel with
  | O => h
  | S fuel' =>
      match ws with
      | [] => h
      | _ => blocks fuel' (skipn 16 ws) (compress h (firstn 16 ws))
      end
  end.

Definition digest (r : regs) : bytes :=
  word_bytes (ra r) ++ word_bytes (rb r) ++ word_bytes (rc r)
    ++ word_bytes (rd r) ++ word_bytes (re r) ++ word_bytes (rf r)
    ++ word_bytes (rg r) ++ word_bytes (rh r).

Definition sum256 (msg : bytes) : bytes :=
  let ws := words (pad (map Z_of_byte msg)) in
  digest (blocks (length ws) ws H0).
End SHA256.

(** Modelled from the spec: [hashing.ComputeHash256] lives in utils/hashing,
    which is not among the sources verified here.  The specification asks for a fixed-output-length
    cryptographic hash; the function the code names is SHA-256, 32 bytes. *)
Definition ComputeHash256 (buf : bytes) : bytes := SHA256.sum256 buf.
Arguments ComputeHash256 : simpl never.
#[global] Opaque ComputeHash256.

Definition HashLen : nat := 32.

(** The bytes of a digest as numbers, to compare with published vectors. *)
Definition hex_of_bytes (bs : bytes) : list Z := map Z_of_byte bs.

(** ** Go values *)

(** A Go [error]: [None] is nil.  [database.ErrClosed] and
    [database.ErrNotFound] are the sentinels of package database; a wrapped
    store may return any other error. *)
Inductive Err := ErrClosed | ErrNotFound | ErrOther (msg : string).
Definition error := option Err.

(** A call returns, or the goroutine panics. *)
Inductive outcome (A : Type) : Type :=
| Returns (a : A)
| Panics.
Arguments Returns {A} a.
Arguments Panics {A}.

(** A [[]byte]: the backing array from the slice's first element to its
    capacity, and the length. *)
Record slice := Slice { arr : bytes; len : nat }.

Definition cap (s : slice) : nat := length (arr s).

(** The bytes a callee sees. *)
Definition slice_bytes (s : slice) : bytes := take (len s) (arr s).

(** [make([]byte, n, c)] *)
Definition make (n c : nat) : slice := Slice (repeat x00 c) n.

(** [s[:n]], for n within the capacity *)
Definition reslice (s : slice) (n : nat) : slice := Slice (arr s) n.

(** [copy(dst[off:], src)]: as many bytes as both sides have. *)
Definition copy_at (off : nat) (dst : slice) (src : bytes) : slice :=
  let n := Nat.min (len dst - off) (length src) in
  Slice (take off (arr dst) ++ take n src ++ drop (off + n) (arr dst)) (len dst).

Definition copy (dst : slice) (src : bytes) : slice := copy_at 0 dst src.

(** Modelled from the spec: [utils.CopyBytes] is not among the sources; it
    returns an independent copy of its argument.  Byte strings are values
    here, so the copy has the same contents and shares nothing. *)
Definition CopyBytes (b : bytes) : bytes := b.

(** Go's [int] on a 64-bit platform. *)
Definition wrap64 (x : Z) : Z := ((x + 2 ^ 63) mod 2 ^ 64 - 2 ^ 63)%Z.

(** ** The wrapped stores

    Everything behind the [database.Database] interface that is not a
    [*prefixdb.Database]: the stores, their batches and their iterators are
    handles into one opaque state [St]; each method takes the state and
    returns its results and the state it leaves. *)
Record Backend := {
  St : Type;
  Store : Type;
  UBatch : Type;
  UIter : Type;
  u_Has : Store -> bytes -> St -> (bool * error) * St;
  u_Get : Store -> bytes -> St -> (bytes * error) * St;
  u_Put : Store -> bytes -> bytes -> St -> error * St;
  u_Delete : Store -> bytes -> St -> error * St;
  u_NewBatch : Store -> St -> UBatch * St;
  u_NewIteratorWithStartAndPrefix : Store -> bytes -> bytes -> St -> UIter * St;
  u_Stat : Store -> string -> St -> (string * error) * St;
  u_Compact : Store -> bytes -> bytes -> St -> error * St;
  ub_Put : UBatch -> bytes -> bytes -> St -> error * St;
  ub_Delete : UBatch -> bytes -> St -> error * St;
  ub_Write : UBatch -> St -> error * St;
  ub_Reset : UBatch -> St -> unit * St;
  ui_Key : UIter -> St -> bytes * St;
}.

(** A [database.KeyValueWriter], the target of a replay. *)
Record Writer := {
  WSt : Type;
  w_Put : bytes -> bytes -> WSt -> outcome (error * WSt);
  w_Delete : bytes -> WSt -> outcome (error * WSt);
}.

Module prefixdb.

Definition defaultBufCap : nat := 512.

(** A [*Database]: an address in the heap. *)
Abbreviation addr := nat (only parsing).

Record keyValue := KeyValue { key : bytes; value : bytes; delete : bool }.

(** A [[]keyValue]: the elements, and the capacity of the backing array. *)
Record kvslice := KVSlice { items : list keyValue; kvcap : nat }.

Section Prefixdb.
Context {B : Backend}.

(** The constants of package database that [Reset] reads, and the
    capacity the runtime picks when [append] outgrows the backing array;
    none is defined in the sources verified here. *)
Variable MaxExcessCapacityFactor : Z.
Variable CapacityReductionFactor : Z.
Variable growslice : nat -> nat.

(** [type Database struct]; the lock is not modelled, every method runs
    alone.  [db] is nil once closed.  [bufferPool] lists the buffers put
    back.  [sync.Pool] promises neither an order nor that a buffer put
    back is kept: the list, read from its head, is one of its schedules.
    What is proved of the pool is stated for every content of the list and
    uses neither the order nor the retention. *)
Record Database := mkDatabase {
  dbPrefix : bytes;
  db : option (Store B);
  bufferPool : list slice;
}.

(** A [database.Database] interface value, as [New] tells them apart. *)
Inductive database_Database :=
| Nil
| Other (h : Store B)
| PrefixDB (a : addr).

Record World := mkWorld { heap : list Database; under : St B }.

Definition M (A : Type) : Type := World -> outcome (A * World).

Definition ret {A} (a : A) : M A := fun w => Returns (a, w).

Definition bind {A C} (m : M A) (k : A -> M C) : M C :=
  fun w => match m w with
           | Returns (a, w') => k a w'
           | Panics => Panics
           end.

Definition panic {A} : M A := fun _ => Panics.

(** Reading through a [*Database]; a dangling address stands for a nil
    receiver. *)
Definition deref (a : addr) : M Database :=
  fun w => match heap w !! a with
           | Some d => Returns (d, w)
           | None => Panics
           end.

Definition assign (a : addr) (d : Database) : M unit :=
  fun w => Returns (tt, mkWorld (<[a := d]> (heap w)) (under w)).

Definition alloc (d : Database) : M addr :=
  fun w => Returns (length (heap w), mkWorld (heap w ++ [d]) (under w)).

(** A call into a wrapped store. *)
Definition call {A} (f : St B -> A * St B) : M A :=
  fun w => let (r, s) := f (under w) in Returns (r, mkWorld (heap w) s).

Notation "'let*' x ':=' m 'in' k" := (bind m (fun x => k))
  (at level 10, x name, m at level 100, k at level 200).
Notation "m ';;' k" := (bind m (fun _ => k))
  (at level 100, k at level 200, right associativity).

(** *** The buffer pool of a Database *)

Definition pool_Get (a : addr) : M slice :=
  let* d := deref a in
  match bufferPool d with
  | [] => ret (make 0 defaultBufCap)
  | buf :: rest =>
      assign a (mkDatabase (dbPrefix d) (db d) rest);;
      ret buf
  end.

Definition pool_Put (a : addr) (buf : slice) : M unit :=
  let* d := deref a in
  assign a (mkDatabase (dbPrefix d) (db d) (buf :: bufferPool d)).

(** *** Construction *)

Definition NewNested (prefix : bytes) (db : option (Store B)) : M addr :=
  alloc (mkDatabase (ComputeHash256 prefix) db []).

Definition New (prefix : bytes) (target : database_Database) : M addr :=
  match target with
  | PrefixDB pa =>
      let* prefixDB := deref pa in
      let n := length (dbPrefix prefixDB) in
      let simplePrefix := make (n + length prefix) (n + length prefix) in
      let simplePrefix := copy simplePrefix (dbPrefix prefixDB) in
      let simplePrefix := copy_at n simplePrefix prefix in
      NewNested (slice_bytes simplePrefix) (db prefixDB)
  | Other h => NewNested prefix (Some h)
  | Nil => NewNested prefix None
  end.

(** *** Key construction *)

Definition prefix (a : addr) (key : bytes) : M slice :=
  let* prefixedKey := pool_Get a in
  let* d := deref a in
  let keyLen := length (dbPrefix d) + length key in
  let* prefixedKey :=
    (if keyLen <=? cap prefixedKey
     then ret (reslice prefixedKey keyLen)
     else pool_Put a prefixedKey;; ret (make keyLen keyLen)) in
  let prefixedKey := copy prefixedKey (dbPrefix d) in
  let prefixedKey := copy_at (length (dbPrefix d)) prefixedKey key in
  ret prefixedKey.

(** *** Point operations *)

Definition Has (a : addr) (key : bytes) : M (bool * error) :=
  let* d := deref a in
  match db d with
  | None => ret (false, Some ErrClosed)
  | Some h =>
      let* prefixedKey := prefix a key in
      let* r := call (u_Has B h (slice_bytes prefixedKey)) in
      pool_Put a (reslice prefixedKey 0);;
      ret r
  end.

Definition Get (a : addr) (key : bytes) : M (bytes * error) :=
  let* d := deref a in
  match db d with
  | None => ret ([], Some ErrClosed)
  | Some h =>
      let* prefixedKey := prefix a key in
      let* r := call (u_Get B h (slice_bytes prefixedKey)) in
      pool_Put a (reslice prefixedKey 0);;
      ret r
  end.

Definition Put (a : addr) (key value : bytes) : M error :=
  let* d := deref a in
  match db d with
  | None => ret (Some ErrClosed)
  | Some h =>
      let* prefixedKey := prefix a key in
      let* err := call (u_Put B h (slice_bytes prefixedKey) value) in
      pool_Put a (reslice prefixedKey 0);;
      ret err
  end.

Definition Delete (a : addr) (key : bytes) : M error :=
  let* d := deref a in
  match db d with
  | None => ret (Some ErrClosed)
  | Some h =>
      let* prefixedKey := prefix a key in
      let* err := call (u_Delete B h (slice_bytes prefixedKey)) in
      pool_Put a (reslice prefixedKey 0);;
      ret err
  end.

Definition Stat (a : addr) (stat : string) : M (string * error) :=
  let* d := deref a in
  match db d with
  | None => ret (EmptyString, Some ErrClosed)
  | Some h => call (u_Stat B h stat)
  end.

Definition Compact (a : addr) (start limit : bytes) : M error :=
  let* d := deref a in
  match db d with
  | None => ret (Some ErrClosed)
  | Some h =>
      let* pstart := prefix a start in
      let* plimit := prefix a limit in
      call (u_Compact B h (slice_bytes pstart) (slice_bytes plimit))
  end.

Definition Close (a : addr) : M error :=
  let* d := deref a in
  match db d with
  | None => ret (Some ErrClosed)
  | Some _ =>
      assign a (mkDatabase (dbPrefix d) None (bufferPool d));;
      ret None
  end.

(** *** Batches *)

(** [type batch struct]: the embedded batch of the wrapped store, the
    owning Database and the replay log. *)
Record batch := mkBatch {
  Batch : UBatch B;
  bdb : addr;
  writes : kvslice;
}.

(** [db.db.NewBatch()] is a method call on the interface value [db.db]:
    on nil it panics. *)
Definition NewBatch (a : addr) : M batch :=
  let* d := deref a in
  let* ub := match db d with
             | None => panic
             | Some h => call (u_NewBatch B h)
             end in
  ret (mkBatch ub a (KVSlice [] 0)).

(** [append(s, kv)] *)
Definition append (s : kvslice) (kv : keyValue) : kvslice :=
  KVSlice (items s ++ [kv])
          (if length (items s) <? kvcap s then kvcap s else growslice (kvcap s)).

(** The batch methods return the batch as they leave it. *)
Definition batch_Put (b : batch) (key value : bytes) : M (error * batch) :=
  let b := mkBatch (Batch b) (bdb b)
             (append (writes b) (KeyValue (CopyBytes key) (CopyBytes value) false)) in
  let* prefixedKey := prefix (bdb b) key in
  let* err := call (ub_Put B (Batch b) (slice_bytes prefixedKey) value) in
  pool_Put (bdb b) (reslice prefixedKey 0);;
  ret (err, b).

Definition batch_Delete (b : batch) (key : bytes) : M (error * batch) :=
  let b := mkBatch (Batch b) (bdb b)
             (append (writes b) (KeyValue (CopyBytes key) [] true)) in
  let* prefixedKey := prefix (bdb b) key in
  let* err := call (ub_Delete B (Batch b) (slice_bytes prefixedKey)) in
  pool_Put (bdb b) (reslice prefixedKey 0);;
  ret (err, b).

Definition batch_Write (b : batch) : M error :=
  let* d := deref (bdb b) in
  match db d with
  | None => ret (Some ErrClosed)
  | Some _ => call (ub_Write B (Batch b))
  end.

(** [make([]keyValue, 0, c)] panics on a negative capacity. *)
Definition make_kv (c : Z) : M kvslice :=
  if (c <? 0)%Z then panic else ret (KVSlice [] (Z.to_nat c)).

Definition batch_Reset (b : batch) : M batch :=
  let c := Z.of_nat (kvcap (writes b)) in
  let l := Z.of_nat (length (items (writes b))) in
  let* ws :=
    (if (wrap64 (l * MaxExcessCapacityFactor) <? c)%Z
     then make_kv (Z.quot c CapacityReductionFactor)
     else ret (KVSlice [] (kvcap (writes b)))) in
  call (ub_Reset B (Batch b));;
  ret (mkBatch (Batch b) (bdb b) ws).

(** [Replay] over any writer: the loop over [b.writes]. *)
Fixpoint replay (W : Writer) (ws : list keyValue) (t : WSt W)
  : outcome (error * WSt W) :=
  match ws with
  | [] => Returns (None, t)
  | keyvalue :: rest =>
      match (if delete keyvalue
             then w_Delete W (key keyvalue) t
             else w_Put W (key keyvalue) (value keyvalue) t) with
      | Panics => Panics
      | Returns (Some err, t') => Returns (Some err, t')
      | Returns (None, t') => replay W rest t'
      end
  end.

Definition batch_Replay (W : Writer) (b : batch) (t : WSt W)
  : outcome (error * WSt W) :=
  replay W (items (writes b)) t.

(** *** Iterators *)

Record iterator := mkIterator { Iterator : UIter B; idb : addr }.

(** What [NewIteratorWithStartAndPrefix] returns: [nodb.Iterator] with
    its error, or a prefix-stripping iterator. *)
Inductive database_Iterator :=
| NodbIterator (err : error)
| PrefixIterator (it : iterator).

Definition NewIteratorWithStartAndPrefix (a : addr) (start pfx : bytes)
  : M database_Iterator :=
  let* d := deref a in
  match db d with
  | None => ret (NodbIterator (Some ErrClosed))
  | Some h =>
      let* pstart := prefix a start in
      let* ppfx := prefix a pfx in
      let* it := call (u_NewIteratorWithStartAndPrefix B h
                         (slice_bytes pstart) (slice_bytes ppfx)) in
      ret (PrefixIterator (mkIterator it a))
  end.

Definition NewIterator (a : addr) : M database_Iterator :=
  NewIteratorWithStartAndPrefix a [] [].

Definition NewIteratorWithStart (a : addr) (start : bytes) : M database_Iterator :=
  NewIteratorWithStartAndPrefix a start [].

Definition NewIteratorWithPrefix (a : addr) (pfx : bytes) : M database_Iterator :=
  NewIteratorWithStartAndPrefix a [] pfx.

(** The stripping step of [Key], on the raw key of the inner iterator. *)
Definition strip (dbPrefix key : bytes) : bytes :=
  let prefixLen := length dbPrefix in
  if prefixLen <=? length key then drop prefixLen key else key.

Definition iterator_Key (it : iterator) : M bytes :=
  let* key := call (ui_Key B (Iterator it)) in
  let* d := deref (idb it) in
  ret (strip (dbPrefix d) key).

(** *** What a wrapped store owes its callers

    The laws of a key-value store, for the store behind handle [h] and a
    reading [contents] of its state: reads report the contents and leave
    them alone; a write that succeeds takes effect, and no write touches
    another key. *)
Record KeyValueStore (h : Store B) (contents : St B -> bytes -> option bytes)
  : Prop := {
  kv_Has : forall k s,
    fst (u_Has B h k s) = (bool_decide (is_Some (contents s k)), None)
    /\ contents (snd (u_Has B h k s)) = contents s;
  kv_Get : forall k s,
    fst (u_Get B h k s)
    = match contents s k with
      | Some v => (v, None)
      | None => ([], Some ErrNotFound)
      end
    /\ contents (snd (u_Get B h k s)) = contents s;
  kv_Put : forall k v s,
    (fst (u_Put B h k v s) = None -> contents (snd (u_Put B h k v s)) k = Some v)
    /\ (forall k', k' <> k ->
          contents (snd (u_Put B h k v s)) k' = contents s k');
  kv_Delete : forall k s,
    (fst (u_Delete B h k s) = None -> contents (snd (u_Delete B h k s)) k = None)
    /\ (forall k', k' <> k ->
          contents (snd (u_Delete B h k s)) k' = contents s k');
  kv_Stat : forall n s, contents (snd (u_Stat B h n s)) = contents s;
}.

End Prefixdb.
End prefixdb.

(** ** An in-memory store

    A reference implementation of the [Backend] interface: the pairs of the
    one store, and the log of every batch taken from it. *)
Module memdb.
Import prefixdb.

Record state := State {
  pairs : list (bytes * bytes);
  pending : list (list keyValue);
}.

Fixpoint lookup (k : bytes) (l : list (bytes * bytes)) : option bytes :=
  match l with
  | [] => None
  | (k', v) :: rest => if decide (k' = k) then Some v else lookup k rest
  end.

Definition remove (k : bytes) (l : list (bytes * bytes)) : list (bytes * bytes) :=
  filter (fun kv => kv.1 <> k) l.

Definition store (k v : bytes) (l : list (bytes * bytes)) : list (bytes * bytes) :=
  (k, v) :: remove k l.

Definition commit (l : list (bytes * bytes)) (kv : keyValue) : list (bytes * bytes) :=
  if delete kv then remove (key kv) l else store (key kv) (value kv) l.

Definition has_prefix (p k : bytes) : bool := bool_decide (take (length p) k = p).

Definition backend : Backend := {|
  St := state;
  Store := unit;
  UBatch := nat;
  UIter := list (bytes * bytes);
  u_Has := fun _ k s => ((bool_decide (is_Some (lookup k (pairs s))), None), s);
  u_Get := fun _ k s =>
    (match lookup k (pairs s) with
     | Some v => (v, None)
     | None => ([], Some ErrNotFound)
     end, s);
  u_Put := fun _ k v s => (None, State (store k v (pairs s)) (pending s));
  u_Delete := fun _ k s => (None, State (remove k (pairs s)) (pending s));
  u_NewBatch := fun _ s => (length (pending s), State (pairs s) (pending s ++ [[]]));
  u_NewIteratorWithStartAndPrefix := fun _ _ p s =>
    (filter (fun kv => has_prefix p kv.1 = true) (pairs s), s);
  u_Stat := fun _ _ s => ((EmptyString, Some (ErrOther "unknown stat")), s);
  u_Compact := fun _ _ _ s => (None, s);
  ub_Put := fun b k v s =>
    (None, State (pairs s)
                 (alter (fun l => l ++ [KeyValue k v false]) b (pending s)));
  ub_Delete := fun b k s =>
    (None, State (pairs s)
                 (alter (fun l => l ++ [KeyValue k [] true]) b (pending s)));
  ub_Write := fun b s =>
    (None, State (fold_left commit (default [] (pending s !! b)) (pairs s))
                 (pending s));
  ub_Reset := fun b s => (tt, State (pairs s) (alter (fun _ => []) b (pending s)));
  ui_Key := fun it s => (match it with [] => [] | kv :: _ => kv.1 end, s);
|}.

Definition contents (s : state) (k : bytes) : option bytes := lookup k (pairs s).

Definition empty : state := State [] [].

(** A replay target: the pairs alone. *)
Definition writer : Writer := {|
  WSt := list (bytes * bytes);
  w_Put := fun k v l => Returns (None, store k v l);
  w_Delete := fun k l => Returns (None, remove k l);
|}.

(** A replay target that refuses the key [bad]. *)
Definition picky (bad : bytes) : Writer := {|
  WSt := list (bytes * bytes);
  w_Put := fun k v l =>
    if decide (k = bad) then Returns (Some (ErrOther "refused"), l)
    else Returns (None, store k v l);
  w_Delete := fun k l =>
    if decide (k = bad) then Returns (Some (ErrOther "refused"), l)
    else Returns (None, remove k l);
|}.
End memdb.

Import prefixdb.

(** ** Proof-side definitions *)

Section Readings.
Context {B : Backend}.

(** What [bufferPool.Get] hands out for a Database, and what stays. *)
Definition taken (d : @Database B) : slice * list slice :=
  match bufferPool d with
  | [] => (make 0 defaultBufCap, [])
  | buf :: rest => (buf, rest)
  end.

Definition keyLen (d : @Database B) (k : bytes) : nat :=
  length (dbPrefix d) + length k.

(** The buffer [prefix] returns: the pooled one when it is large enough,
    a fresh one of the exact length otherwise. *)
Definition key_buffer (d : @Database B) (k : bytes) : slice :=
  let n := keyLen d k in
  if n <=? cap (taken d).1
  then Slice (dbPrefix d ++ k ++ drop n (arr (taken d).1)) n
  else Slice (dbPrefix d ++ k) n.

(** The pool [prefix] leaves behind. *)
Definition pool_after_prefix (d : @Database B) (k : bytes) : list slice :=
  if keyLen d k <=? cap (taken d).1
  then (taken d).2
  else (taken d).1 :: (taken d).2.

(** The Database after a point operation on key [k]: only its pool moved,
    the buffer is back with length zero. *)
Definition after_key (d : @Database B) (k : bytes) : @Database B :=
  mkDatabase (dbPrefix d) (db d)
             (reslice (key_buffer d k) 0 :: pool_after_prefix d k).

Definition with_pool (d : @Database B) (p : list slice) : @Database B :=
  mkDatabase (dbPrefix d) (db d) p.

Definition set_db (a : addr) (d : @Database B) (w : @World B) : @World B :=
  mkWorld (<[a := d]> (heap w)) (under w).

Definition closed_at (a : addr) (w : @World B) : Prop :=
  exists d, heap w !! a = Some d /\ db d = None.

Definition open_at (a : addr) (h : Store B) (w : @World B) : Prop :=
  exists d, heap w !! a = Some d /\ db d = Some h.

(** The physical key a Database sends to the store it wraps. *)
Definition physical_key (d : @Database B) (k : bytes) : bytes :=
  dbPrefix d ++ k.
End Readings.

(** One record of the log, applied to a writer. *)
Definition apply_record (W : Writer) (kv : keyValue) (t : WSt W)
  : outcome (error * WSt W) :=
  if delete kv then w_Delete W (key kv) t else w_Put W (key kv) (value kv) t.

(** [applies W ws t t']: every record of [ws], in order, was written to
    the target without error, taking it from [t] to [t']. *)
Inductive applies (W : Writer) : list keyValue -> WSt W -> WSt W -> Prop :=
| applies_nil t : applies W [] t t
| applies_cons kv ws t t1 t2 :
    apply_record W kv t = Returns (None, t1) ->
    applies W ws t1 t2 ->
    applies W (kv :: ws) t t2.

(** *** Histories

    One step of a history is one call of the package returning, or anything
    happening to the wrapped stores from elsewhere. *)
Section Histories.
Context {B : Backend}.
Variable MaxExcessCapacityFactor : Z.
Variable CapacityReductionFactor : Z.
Variable growslice : nat -> nat.

Inductive step : @World B -> @World B -> Prop :=
| step_NewNested p t r w w' :
    NewNested p t w = Returns (r, w') -> step w w'
| step_New p t r w w' :
    New p t w = Returns (r, w') -> step w w'
| step_Has a k r w w' :
    Has a k w = Returns (r, w') -> step w w'
| step_Get a k r w w' :
    Get a k w = Returns (r, w') -> step w w'
| step_Put a k v r w w' :
    Put a k v w = Returns (r, w') -> step w w'
| step_Delete a k r w w' :
    Delete a k w = Returns (r, w') -> step w w'
| step_Stat a n r w w' :
    Stat a n w = Returns (r, w') -> step w w'
| step_Compact a k1 k2 r w w' :
    Compact a k1 k2 w = Returns (r, w') -> step w w'
| step_Close a r w w' :
    Close a w = Returns (r, w') -> step w w'
| step_NewBatch a r w w' :
    NewBatch a w = Returns (r, w') -> step w w'
| step_NewIterator a k1 k2 r w w' :
    NewIteratorWithStartAndPrefix a k1 k2 w = Returns (r, w') -> step w w'
| step_batch_Put b k v r w w' :
    batch_Put growslice b k v w = Returns (r, w') -> step w w'
| step_batch_Delete b k r w w' :
    batch_Delete growslice b k w = Returns (r, w') -> step w w'
| step_batch_Write b r w w' :
    batch_Write b w = Returns (r, w') -> step w w'
| step_batch_Reset b r w w' :
    batch_Reset MaxExcessCapacityFactor CapacityReductionFactor b w
    = Returns (r, w') -> step w w'
| step_iterator_Key it r w w' :
    iterator_Key it w = Returns (r, w') -> step w w'
| step_elsewhere w s :
    step w (mkWorld (heap w) s).

(** [history w w']: [w'] comes after [w]. *)
Definition history : @World B -> @World B -> Prop := rtc step.

(** What no step undoes: an allocated Database stays, keeps its prefix,
    and keeps its store or loses it. *)
Definition evolves (w w' : @World B) : Prop :=
  forall a d, heap w !! a = Some d ->
    exists d', heap w' !! a = Some d'
      /\ dbPrefix d' = dbPrefix d
      /\ (db d' = db d \/ db d' = None).

Definition preserves {A} (m : M A) : Prop :=
  forall w r w', m w = Returns (r, w') -> evolves w w'.
End Histories.

(** *** Sample worlds over the in-memory store *)
Module sample.
Definition chains : bytes := bytes_of_string "chains".
Definition La : bytes := bytes_of_string "a".
Definition Lb : bytes := bytes_of_string "b".
Definition k1 : bytes := bytes_of_string "k".
Definition v1 : bytes := bytes_of_string "1".

(** One open Database labelled "chains" over the empty store. *)
Definition database : @Database memdb.backend :=
  mkDatabase (B:=memdb.backend) (ComputeHash256 chains) (Some tt) [].

Definition world : @World memdb.backend :=
  mkWorld (B:=memdb.backend) [database] memdb.empty.

(** The same Database with a pooled buffer too small for any key. *)
Definition cramped : @Database memdb.backend :=
  mkDatabase (B:=memdb.backend) (ComputeHash256 chains) (Some tt) [make 0 8].

Definition tight : @World memdb.backend :=
  mkWorld (B:=memdb.backend) [cramped] memdb.empty.

(** Two open Databases, labelled "a" and "b", over the one store. *)
Definition shared : @World memdb.backend :=
  mkWorld (B:=memdb.backend)
          [mkDatabase (B:=memdb.backend) (ComputeHash256 La) (Some tt) [];
           mkDatabase (B:=memdb.backend) (ComputeHash256 Lb) (Some tt) []] memdb.empty.

Definition bad : bytes := bytes_of_string "bad".

(** The in-memory store, as an interface value. *)
Definition raw : @database_Database memdb.backend := Other (B:=memdb.backend) tt.

(** A batch of [database] with three puts logged, the second on [bad],
    in a log that once held many more. *)
Definition logged : @batch memdb.backend :=
  mkBatch (B:=memdb.backend) 0 0
    (KVSlice [KeyValue La v1 false; KeyValue bad v1 false; KeyValue Lb v1 false]
             100).

(** The Databases of the nesting example: "a" over the store, "b" over
    that one, and "ab" over the store. *)
Definition inner : @Database memdb.backend :=
  mkDatabase (B:=memdb.backend) (ComputeHash256 La) (Some tt) [].
Definition nested : @Database memdb.backend :=
  mkDatabase (B:=memdb.backend) (ComputeHash256 (ComputeHash256 La ++ Lb))
             (Some tt) [].


(** "b" over the Database labelled "a", and the label hash("a") || "b"
    over the store: two labels, one prefix. *)
Definition Lflat : bytes := ComputeHash256 La ++ Lb.

Definition twins : @World memdb.backend :=
  mkWorld (B:=memdb.backend) [inner; nested; nested] memdb.empty.

Definition nothing : @World memdb.backend :=
  mkWorld (B:=memdb.backend) [] memdb.empty.
End sample.

(** *** Calls that leave a key alone

    The calls on Database [a] that are neither a write of key [k] nor a
    [Close]: reads, [Stat], and writes of other keys. *)
Section Calm.
Context {B : Backend}.
Variables (a : addr) (k : bytes).


End Calm.

(** *** Properties of every Database of a world *)
Section PerDatabase.
Context {B : Backend}.

Definition every (P : @Database B -> Prop) (w : @World B) : Prop :=
  forall a d, heap w !! a = Some d -> P d.

(** A computation keeps [P] when, returning, it leaves [P] on every
    Database if it found it there. *)
Definition keeps (P : @Database B -> Prop) {A} (m : @M B A) : Prop :=
  forall w r w', m w = Returns (r, w') -> every P w -> every P w'.

(** The invariant written next to [bufferPool] in the struct. *)
Definition pool_zeroed (d : @Database B) : Prop :=
  Forall (fun buf => len buf = 0) (bufferPool d).

Definition prefix_sized (d : @Database B) : Prop :=
  length (dbPrefix d) = HashLen.
End PerDatabase.

(** *** A session of calls on one batch *)
Inductive batch_call :=
| BPut (k v : bytes)
| BDelete (k : bytes).

Definition record_of (c : batch_call) : keyValue :=
  match c with
  | BPut k v => KeyValue k v false
  | BDelete k => KeyValue k [] true
  end.

(** The calls made one after the other on the batch, whatever each
    returns. *)
Fixpoint batch_calls {B : Backend} (growslice : nat -> nat)
    (cs : list batch_call) (b : @batch B) : @M B (@batch B) :=
  match cs with
  | [] => ret b
  | c :: cs' =>
      bind (match c with
            | BPut k v => batch_Put growslice b k v
            | BDelete k => batch_Delete growslice b k
            end)
           (fun r => batch_calls growslice cs' (snd r))
  end.

(** The same calls made on a writer directly, up to the first error. *)
Definition direct_call (W : Writer) (c : batch_call) (t : WSt W)
  : outcome (error * WSt W) :=
  match c with
  | BPut k v => w_Put W k v t
  | BDelete k => w_Delete W k t
  end.

Fixpoint direct (W : Writer) (cs : list batch_call) (t : WSt W)
  : outcome (error * WSt W) :=
  match cs with
  | [] => Returns (None, t)
  | c :: cs' =>
      match direct_call W c t with
      | Panics => Panics
      | Returns (Some err, t') => Returns (Some err, t')
      | Returns (None, t') => direct W cs' t'
      end
  end.

(** ** The hash, on the published test vectors *)

Example sha256_constants :
  length SHA256.K = 64
  /\ hd 0%Z SHA256.K = 0x428a2f98%Z
  /\ last SHA256.K = Some 0xc67178f2%Z
  /\ SHA256.ra SHA256.H0 = 0x6a09e667%Z
  /\ SHA256.rh SHA256.H0 = 0x5be0cd19%Z.
Proof. vm_compute. repeat split. Qed.

Example sha256_empty :
  hex_of_bytes (ComputeHash256 [])
  = [0xe3; 0xb0; 0xc4; 0x42; 0x98; 0xfc; 0x1c; 0x14;
     0x9a; 0xfb; 0xf4; 0xc8; 0x99; 0x6f; 0xb9; 0x24;
     0x27; 0xae; 0x41; 0xe4; 0x64; 0x9b; 0x93; 0x4c;
     0xa4; 0x95; 0x99; 0x1b; 0x78; 0x52; 0xb8; 0x55]%Z.
Proof. vm_compute. reflexivity. Qed.

Example sha256_abc :
  hex_of_bytes (ComputeHash256 (bytes_of_string "abc"))
  = [0xba; 0x78; 0x16; 0xbf; 0x8f; 0x01; 0xcf; 0xea;
     0x41; 0x41; 0x40; 0xde; 0x5d; 0xae; 0x22; 0x23;
     0xb0; 0x03; 0x61; 0xa3; 0x96; 0x17; 0x7a; 0x9c;
     0xb4; 0x10; 0xff; 0x61; 0xf2; 0x00; 0x15; 0xad]%Z.
Proof. vm_compute. reflexivity. Qed.

Example sha256_two_blocks :
  hex_of_bytes
    (ComputeHash256
       (bytes_of_string "abcdbcdecdefdefgefghfghighijhijkijkljklmklmnlmnomnopnopq"))
  = [0x24; 0x8d; 0x6a; 0x61; 0xd2; 0x06; 0x38; 0xb8;
     0xe5; 0xc0; 0x26; 0x93; 0x0c; 0x3e; 0x60; 0x39;
     0xa3; 0x3c; 0xe4; 0x59; 0x64; 0xff; 0x21; 0x67;
     0xf6; 0xec; 0xed; 0xd4; 0x19; 0xdb; 0x06; 0xc1]%Z.
Proof. vm_compute. reflexivity. Qed.

(** ** Slices *)

Section Slices.

Lemma copy_prefix_then_key (buf : slice) (p k : bytes) :
  len buf = length p + length k ->
  length p + length k <= cap buf ->
  copy_at (length p) (copy buf p) k
  = Slice (p ++ k ++ drop (length p + length k) (arr buf))
          (length p + length k).
Proof.
  intros Hlen Hcap. unfold copy, copy_at, cap in *. simpl.
  rewrite Hlen.
  replace (length p + length k - 0) with (length p + length k) by lia.
  rewrite Nat.min_r by lia.
  replace (length p + length k - length p) with (length k) by lia.
  rewrite Nat.min_id, !firstn_all.
  rewrite take_app_length. f_equal. f_equal. f_equal.
  rewrite drop_app_add, drop_drop. reflexivity.
Qed.

Lemma slice_bytes_prefix_key (p k rest : bytes) :
  slice_bytes (Slice (p ++ k ++ rest) (length p + length k)) = p ++ k.
Proof.
  unfold slice_bytes. simpl. rewrite app_assoc.
  rewrite <- length_app. apply take_app_length.
Qed.

Lemma make_exact_drop (n : nat) : drop n (arr (make n n)) = [].
Proof.
  unfold make. simpl. apply drop_ge. rewrite repeat_length. lia.
Qed.

End Slices.

(** ** Running the methods *)

Section Runs.
Context {B : Backend}.
Implicit Types (w : @World B) (d : @Database B) (a : addr).

Lemma world_eta w : mkWorld (heap w) (under w) = w.
Proof. destruct w; reflexivity. Qed.

Lemma database_eta d : mkDatabase (dbPrefix d) (db d) (bufferPool d) = d.
Proof. destruct d; reflexivity. Qed.

Lemma set_db_same a d w : heap w !! a = Some d -> set_db a d w = w.
Proof.
  intros H. unfold set_db. rewrite list_insert_id by exact H. apply world_eta.
Qed.

Lemma set_db_twice a d1 d2 w : set_db a d2 (set_db a d1 w) = set_db a d2 w.
Proof. unfold set_db. simpl. rewrite list_insert_insert_eq. reflexivity. Qed.

Lemma lookup_set_db a d w :
  a < length (heap w) -> heap (set_db a d w) !! a = Some d.
Proof. intros H. unfold set_db. simpl. apply list_lookup_insert_eq, H. Qed.

Lemma lookup_set_db_ne a a' d w :
  a <> a' -> heap (set_db a d w) !! a' = heap w !! a'.
Proof. intros H. unfold set_db. simpl. apply list_lookup_insert_ne, H. Qed.

Lemma deref_at a d w : heap w !! a = Some d -> deref a w = Returns (d, w).
Proof. intros H. unfold deref. rewrite H. reflexivity. Qed.

Lemma deref_dangling a w : heap w !! a = None -> deref a w = @Panics _.
Proof. intros H. unfold deref. rewrite H. reflexivity. Qed.

Lemma bind_returns {A C} (m : M A) (k : A -> M C) w x w' :
  m w = Returns (x, w') -> bind m k w = k x w'.
Proof. intros H. unfold bind. rewrite H. reflexivity. Qed.

Lemma bind_panics {A C} (m : M A) (k : A -> M C) w :
  m w = Panics -> bind m k w = Panics.
Proof. intros H. unfold bind. rewrite H. reflexivity. Qed.

Lemma pool_Put_at a d buf w :
  heap w !! a = Some d ->
  pool_Put a buf w = Returns (tt, set_db a (with_pool d (buf :: bufferPool d)) w).
Proof.
  intros H. unfold pool_Put.
  rewrite (bind_returns _ _ _ _ _ (deref_at _ _ _ H)). reflexivity.
Qed.

Lemma pool_Get_at a d w :
  heap w !! a = Some d ->
  pool_Get a w = Returns ((taken d).1, set_db a (with_pool d (taken d).2) w).
Proof.
  intros H. unfold pool_Get.
  rewrite (bind_returns _ _ _ _ _ (deref_at _ _ _ H)).
  unfold taken. destruct (bufferPool d) as [|buf rest] eqn:E; simpl.
  - unfold ret. do 2 f_equal. symmetry. apply set_db_same.
    rewrite H. f_equal. unfold with_pool. rewrite <- E. symmetry.
    apply database_eta.
  - reflexivity.
Qed.

(** [prefix], run: the buffer it returns and the pool it leaves. *)
Lemma run_prefix a d k w :
  heap w !! a = Some d ->
  prefix a k w
  = Returns (key_buffer d k, set_db a (with_pool d (pool_after_prefix d k)) w).
Proof.
  intros H. pose proof (lookup_lt_Some _ _ _ H) as Hlt.
  unfold prefix.
  rewrite (bind_returns _ _ _ _ _ (pool_Get_at _ _ _ H)).
  rewrite (bind_returns _ _ _ _ _
             (deref_at _ _ _ (lookup_set_db a _ w Hlt))).
  unfold key_buffer, pool_after_prefix, keyLen. simpl dbPrefix.
  destruct (length (dbPrefix d) + length k <=? cap (taken d).1) eqn:E.
  - apply Nat.leb_le in E.
    rewrite (bind_returns _ _ _ _ _ eq_refl). unfold ret.
    rewrite copy_prefix_then_key by (simpl; auto). reflexivity.
  - erewrite bind_returns; cycle 1.
    { erewrite bind_returns by (apply pool_Put_at, lookup_set_db, Hlt).
      reflexivity. }
    unfold ret. rewrite set_db_twice.
    rewrite copy_prefix_then_key
      by (unfold cap, make; simpl; rewrite ?repeat_length; lia).
    rewrite make_exact_drop, app_nil_r. reflexivity.
Qed.

Lemma key_buffer_bytes d k : slice_bytes (key_buffer d k) = physical_key d k.
Proof.
  unfold key_buffer, keyLen, physical_key.
  destruct (_ <=? _).
  - apply slice_bytes_prefix_key.
  - rewrite <- (app_nil_r k) at 1. apply slice_bytes_prefix_key.
Qed.

(** The shape shared by Has, Get, Put, Delete and the batch writes: build
    the key, make one call with it, give the buffer back. *)
Lemma run_keyed {A} (f : bytes -> St B -> A * St B) a d k w :
  heap w !! a = Some d ->
  bind (prefix a k) (fun prefixedKey =>
    bind (call (f (slice_bytes prefixedKey))) (fun r =>
      bind (pool_Put a (reslice prefixedKey 0)) (fun _ => ret r))) w
  = Returns (fst (f (physical_key d k) (under w)),
             mkWorld (<[a := after_key d k]> (heap w))
                     (snd (f (physical_key d k) (under w)))).
Proof.
  intros H. pose proof (lookup_lt_Some _ _ _ H) as Hlt.
  rewrite (bind_returns _ _ _ _ _ (run_prefix _ _ k _ H)).
  rewrite key_buffer_bytes.
  unfold call at 1. unfold bind at 1. simpl under.
  destruct (f (physical_key d k) (under w)) as [r s] eqn:E. simpl.
  erewrite bind_returns; cycle 1.
  { apply pool_Put_at. simpl. apply list_lookup_insert_eq, Hlt. }
  unfold ret, set_db. simpl. rewrite list_insert_insert_eq. reflexivity.
Qed.

End Runs.

(** ** What every step preserves *)

Section Invariants.
Context {B : Backend}.
Implicit Types (w : @World B) (d : @Database B) (a : addr).

Lemma evolves_refl w : evolves w w.
Proof. intros a d H. exists d. auto. Qed.

Lemma evolves_trans w1 w2 w3 : evolves w1 w2 -> evolves w2 w3 -> evolves w1 w3.
Proof.
  intros H12 H23 a d H.
  destruct (H12 a d H) as (d2 & H2 & Hp2 & Hd2).
  destruct (H23 a d2 H2) as (d3 & H3 & Hp3 & Hd3).
  exists d3. split; [exact H3|]. split; [congruence|].
  destruct Hd3 as [Hd3|Hd3]; [|auto].
  destruct Hd2 as [Hd2|Hd2]; [left|right]; congruence.
Qed.

Lemma evolves_set_db a d d' w :
  heap w !! a = Some d ->
  dbPrefix d' = dbPrefix d ->
  db d' = db d \/ db d' = None ->
  evolves w (set_db a d' w).
Proof.
  intros H Hp Hd a0 d0 H0.
  destruct (decide (a = a0)) as [->|Hne].
  - exists d'. rewrite lookup_set_db by (eapply lookup_lt_Some, H).
    assert (d0 = d) by congruence. subst d0. auto.
  - exists d0. rewrite lookup_set_db_ne by exact Hne. auto.
Qed.

Lemma preserves_ret {A} (x : A) : preserves (B:=B) (ret x).
Proof. intros w r w' H. injection H as _ <-. apply evolves_refl. Qed.

Lemma preserves_panic {A} : preserves (B:=B) (@panic B A).
Proof. intros w r w' H. discriminate H. Qed.

Lemma preserves_bind {A C} (m : @M B A) (k : A -> @M B C) :
  preserves m -> (forall x, preserves (k x)) -> preserves (bind m k).
Proof.
  intros Hm Hk w r w' H. unfold bind in H.
  destruct (m w) as [[x w1]|] eqn:E; [|discriminate].
  eapply evolves_trans; [eapply Hm, E | eapply Hk, H].
Qed.

Lemma preserves_deref a : preserves (B:=B) (deref a).
Proof.
  intros w r w' H. unfold deref in H.
  destruct (heap w !! a); [|discriminate].
  injection H as _ <-. apply evolves_refl.
Qed.

Lemma preserves_call {A} (f : St B -> A * St B) : preserves (call f).
Proof.
  intros w r w' H. unfold call in H. destruct (f (under w)) as [x s].
  injection H as _ <-. intros a d Ha. exists d. auto.
Qed.

Lemma preserves_alloc d : preserves (alloc d).
Proof.
  intros w r w' H. unfold alloc in H. injection H as _ <-.
  intros a d0 Ha. exists d0. simpl.
  rewrite lookup_app_l by (eapply lookup_lt_Some, Ha). auto.
Qed.

(** Writing back a Database just read, with the same prefix and the same
    store or none. *)
Lemma preserves_update a (f : @Database B -> @Database B) :
  (forall d, dbPrefix (f d) = dbPrefix d) ->
  (forall d, db (f d) = db d \/ db (f d) = None) ->
  preserves (bind (deref a) (fun d => assign a (f d))).
Proof.
  intros Hp Hd w r w' H. unfold bind, deref in H.
  destruct (heap w !! a) as [d|] eqn:E; [|discriminate].
  unfold assign in H. injection H as _ <-.
  apply (evolves_set_db a d (f d) w E); auto.
Qed.

Lemma preserves_pool_Put a buf : preserves (B:=B) (pool_Put a buf).
Proof. apply preserves_update; simpl; auto. Qed.

Lemma preserves_pool_Get a : preserves (B:=B) (pool_Get a).
Proof.
  intros w r w' H. unfold pool_Get, bind, deref in H.
  destruct (heap w !! a) as [d|] eqn:E; [|discriminate].
  destruct (bufferPool d).
  - injection H as _ <-. apply evolves_refl.
  - unfold assign, ret in H. injection H as _ <-.
    apply (evolves_set_db a d _ w E); simpl; auto.
Qed.

Ltac preserve :=
  repeat first
    [ apply preserves_pool_Put
    | apply preserves_pool_Get
    | apply preserves_ret
    | apply preserves_panic
    | apply preserves_deref
    | apply preserves_call
    | apply preserves_alloc
    | apply preserves_bind; [|intros ?]
    | match goal with
      | |- preserves (match ?x with _ => _ end) => destruct x
      | |- preserves (if ?x then _ else _) => destruct x
      end ].

Lemma preserves_prefix a k : preserves (B:=B) (prefix a k).
Proof. unfold prefix. preserve. Qed.

Lemma preserves_Close a : preserves (B:=B) (Close a).
Proof.
  intros w r w' H. unfold Close, bind, deref in H.
  destruct (heap w !! a) as [d|] eqn:E; [|discriminate].
  destruct (db d) eqn:Ed.
  - unfold assign, ret in H. injection H as _ <-.
    apply (evolves_set_db a d _ w E); simpl; auto.
  - injection H as _ <-. apply evolves_refl.
Qed.

Lemma step_evolves F R g w w' : step F R g w w' -> evolves w w'.
Proof.
  assert (Hk : forall a k, preserves (B:=B) (prefix a k))
    by apply preserves_prefix.
  destruct 1 as [p t r w w' H|p t r w w' H|a k r w w' H|a k r w w' H
                |a k v r w w' H|a k r w w' H|a n r w w' H|a k1 k2 r w w' H
                |a r w w' H|a r w w' H|a k1 k2 r w w' H|b k v r w w' H
                |b k r w w' H|b r w w' H|b r w w' H|it r w w' H|w s];
    try (revert H; match goal with |- ?m _ = _ -> _ => 
           let P := fresh in
           assert (P : preserves m); [|exact (P _ _ _)] end).
  - unfold NewNested. preserve.
  - unfold New, NewNested. preserve.
  - unfold Has. preserve; apply Hk.
  - unfold Get. preserve; apply Hk.
  - unfold Put. preserve; apply Hk.
  - unfold Delete. preserve; apply Hk.
  - unfold Stat. preserve.
  - unfold Compact. preserve; apply Hk.
  - apply preserves_Close.
  - unfold NewBatch. preserve.
  - unfold NewIteratorWithStartAndPrefix. preserve; apply Hk.
  - unfold batch_Put. preserve; apply Hk.
  - unfold batch_Delete. preserve; apply Hk.
  - unfold batch_Write. preserve.
  - unfold batch_Reset, make_kv. preserve.
  - unfold iterator_Key. preserve.
  - intros a d Ha. exists d. auto.
Qed.

Lemma history_evolves F R g w w' : history F R g w w' -> evolves w w'.
Proof.
  induction 1 as [w|w1 w2 w3 Hs _ IH].
  - apply evolves_refl.
  - eapply evolves_trans; [eapply step_evolves, Hs | exact IH].
Qed.

Lemma closed_evolves a w w' : closed_at a w -> evolves w w' -> closed_at a w'.
Proof.
  intros (d & Ha & Hd) He. destruct (He a d Ha) as (d' & Ha' & _ & Hd').
  exists d'. split; [exact Ha'|]. destruct Hd'; congruence.
Qed.

End Invariants.

(** ** The methods on an open and on a closed Database *)

Section Methods.
Context {B : Backend}.
Implicit Types (w : @World B) (d : @Database B) (a : addr).

Lemma run_Has a d h k w :
  heap w !! a = Some d -> db d = Some h ->
  Has a k w
  = Returns (fst (u_Has B h (physical_key d k) (under w)),
             mkWorld (<[a := after_key d k]> (heap w))
                     (snd (u_Has B h (physical_key d k) (under w)))).
Proof.
  intros H Hd. unfold Has.
  rewrite (bind_returns _ _ _ _ _ (deref_at _ _ _ H)), Hd.
  apply (run_keyed (u_Has B h)), H.
Qed.

Lemma run_Get a d h k w :
  heap w !! a = Some d -> db d = Some h ->
  Get a k w
  = Returns (fst (u_Get B h (physical_key d k) (under w)),
             mkWorld (<[a := after_key d k]> (heap w))
                     (snd (u_Get B h (physical_key d k) (under w)))).
Proof.
  intros H Hd. unfold Get.
  rewrite (bind_returns _ _ _ _ _ (deref_at _ _ _ H)), Hd.
  apply (run_keyed (u_Get B h)), H.
Qed.

Lemma run_Put a d h k v w :
  heap w !! a = Some d -> db d = Some h ->
  Put a k v w
  = Returns (fst (u_Put B h (physical_key d k) v (under w)),
             mkWorld (<[a := after_key d k]> (heap w))
                     (snd (u_Put B h (physical_key d k) v (under w)))).
Proof.
  intros H Hd. unfold Put.
  rewrite (bind_returns _ _ _ _ _ (deref_at _ _ _ H)), Hd.
  apply (run_keyed (fun pk => u_Put B h pk v)), H.
Qed.

Lemma run_Delete a d h k w :
  heap w !! a = Some d -> db d = Some h ->
  Delete a k w
  = Returns (fst (u_Delete B h (physical_key d k) (under w)),
             mkWorld (<[a := after_key d k]> (heap w))
                     (snd (u_Delete B h (physical_key d k) (under w)))).
Proof.
  intros H Hd. unfold Delete.
  rewrite (bind_returns _ _ _ _ _ (deref_at _ _ _ H)), Hd.
  apply (run_keyed (u_Delete B h)), H.
Qed.

Lemma run_Stat a d h n w :
  heap w !! a = Some d -> db d = Some h ->
  Stat a n w
  = Returns (fst (u_Stat B h n (under w)),
             mkWorld (heap w) (snd (u_Stat B h n (under w)))).
Proof.
  intros H Hd. unfold Stat.
  rewrite (bind_returns _ _ _ _ _ (deref_at _ _ _ H)), Hd.
  unfold call. destruct (u_Stat B h n (under w)). reflexivity.
Qed.

Lemma run_Close_open a d h w :
  heap w !! a = Some d -> db d = Some h ->
  Close a w
  = Returns (None, set_db a (mkDatabase (dbPrefix d) None (bufferPool d)) w).
Proof.
  intros H Hd. unfold Close.
  rewrite (bind_returns _ _ _ _ _ (deref_at _ _ _ H)), Hd. reflexivity.
Qed.

(** Once [db] is nil, every guarded method answers [ErrClosed] and the
    world is what it was. *)
Lemma run_closed a d w :
  heap w !! a = Some d -> db d = None ->
  (forall k, Has a k w = Returns ((false, Some ErrClosed), w))
  /\ (forall k, Get a k w = Returns (([], Some ErrClosed), w))
  /\ (forall k v, Put a k v w = Returns (Some ErrClosed, w))
  /\ (forall k, Delete a k w = Returns (Some ErrClosed, w))
  /\ (forall k1 k2, Compact a k1 k2 w = Returns (Some ErrClosed, w))
  /\ (forall n, Stat a n w = Returns ((EmptyString, Some ErrClosed), w))
  /\ Close a w = Returns (Some ErrClosed, w)
  /\ (forall b, bdb b = a -> batch_Write b w = Returns (Some ErrClosed, w))
  /\ (forall k1 k2, NewIteratorWithStartAndPrefix a k1 k2 w
                    = Returns (NodbIterator (Some ErrClosed), w))
  /\ NewBatch a w = Panics.
Proof.
  intros H Hd.
  repeat split; intros;
    unfold Has, Get, Put, Delete, Compact, Stat, Close, batch_Write,
      NewIteratorWithStartAndPrefix, NewBatch;
    subst;
    rewrite (bind_returns _ _ _ _ _ (deref_at _ _ _ H)), Hd;
    reflexivity.
Qed.

Lemma run_NewNested p t w :
  NewNested p t w
  = Returns (length (heap w),
             mkWorld (heap w ++ [mkDatabase (ComputeHash256 p) t []]) (under w)).
Proof. reflexivity. Qed.

End Methods.

(** ** Key construction *)

Section KeyConstruction.
Context {B : Backend}.
Implicit Types (w : @World B) (d : @Database B) (a : addr).

Lemma cap_key_buffer d k :
  cap (key_buffer d k)
  = if keyLen d k <=? cap (taken d).1 then cap (taken d).1 else keyLen d k.
Proof.
  unfold key_buffer, cap. destruct (keyLen d k <=? _) eqn:E; simpl.
  - apply Nat.leb_le in E. unfold cap in E.
    rewrite !length_app, length_drop. unfold keyLen in *. lia.
  - rewrite length_app. reflexivity.
Qed.

Lemma len_key_buffer d k : len (key_buffer d k) = keyLen d k.
Proof. unfold key_buffer. destruct (_ <=? _); reflexivity. Qed.

(** C5. The key-construction algorithm yields exactly [prefix || key]:
    it takes a buffer from the pool; when the capacity suffices the
    buffer is resliced to [len(prefix)+len(key)] and leaves the pool,
    otherwise it goes back to the pool untouched and a buffer of exactly
    the needed length is allocated; the prefix bytes and then the key
    bytes fill it.  [Put] hands that key and the caller's value, verbatim,
    to the wrapped store and returns its error. *)
Theorem C5_key_construction w a d k :
  heap w !! a = Some d ->
  let n := length (dbPrefix d) + length k in
  let buf := (taken d).1 in
  let rest := (taken d).2 in
  exists pk w',
    prefix a k w = Returns (pk, w')
    /\ slice_bytes pk = dbPrefix d ++ k
    /\ len pk = n
    /\ under w' = under w
    /\ (n <= cap buf ->
        cap pk = cap buf
        /\ heap w' = <[a := with_pool d rest]> (heap w))
    /\ (cap buf < n ->
        cap pk = n
        /\ heap w' = <[a := with_pool d (buf :: rest)]> (heap w))
    /\ (forall h v, db d = Some h ->
        exists w2,
          Put a k v w = Returns (fst (u_Put B h (dbPrefix d ++ k) v (under w)), w2)
          /\ under w2 = snd (u_Put B h (dbPrefix d ++ k) v (under w))).
Proof.
  intros H n buf rest.
  exists (key_buffer d k), (set_db a (with_pool d (pool_after_prefix d k)) w).
  split; [apply run_prefix, H|].
  split; [apply key_buffer_bytes|].
  split; [apply len_key_buffer|].
  split; [reflexivity|].
  split; [|split].
  - intros Hle. rewrite cap_key_buffer. unfold pool_after_prefix, keyLen.
    fold n buf rest. apply Nat.leb_le in Hle. rewrite Hle. auto.
  - intros Hlt. rewrite cap_key_buffer. unfold pool_after_prefix, keyLen.
    fold n buf rest. apply Nat.leb_gt in Hlt. rewrite Hlt. auto.
  - intros h v Hd. eexists. split; [apply (run_Put a d h k v w H Hd)|].
    reflexivity.
Qed.

(** A fresh pool hands out a buffer of [defaultBufCap] bytes. *)
Lemma taken_fresh d : bufferPool d = [] -> cap (taken d).1 = defaultBufCap.
Proof. intros E. unfold taken. rewrite E. reflexivity. Qed.

End KeyConstruction.

Lemma C5_key_construction_witness :
  exists pk w',
    prefix 0 sample.k1 sample.tight = Returns (pk, w')
    /\ slice_bytes pk = ComputeHash256 sample.chains ++ sample.k1.
Proof.
  destruct (C5_key_construction sample.tight 0
              sample.cramped sample.k1 eq_refl)
    as (pk & w' & Hrun & Hbytes & _).
  exists pk, w'. split; [exact Hrun | exact Hbytes].
Defined.

(** ** Iterators *)

Section Iterators.
Context {B : Backend}.
Implicit Types (w : @World B) (d : @Database B).

Lemma strip_prefixed (p k : bytes) : strip p (p ++ k) = k.
Proof.
  unfold strip. rewrite length_app.
  destruct (length p <=? length p + length k) eqn:E.
  - apply drop_app_length.
  - apply Nat.leb_gt in E. lia.
Qed.

(** C7. [Key] returns the raw key of the inner iterator without its first
    [len(prefix)] bytes whenever the raw key is at least that long, and
    the raw key itself when it is shorter; it always returns. *)
Theorem C7_iterator_Key w it d :
  heap w !! idb it = Some d ->
  let raw := fst (ui_Key B (Iterator it) (under w)) in
  exists k,
    iterator_Key it w
    = Returns (k, mkWorld (heap w) (snd (ui_Key B (Iterator it) (under w))))
    /\ (length (dbPrefix d) <= length raw -> k = drop (length (dbPrefix d)) raw)
    /\ (length raw < length (dbPrefix d) -> k = raw)
    /\ (forall k0, raw = dbPrefix d ++ k0 -> k = k0).
Proof.
  intros H raw. exists (strip (dbPrefix d) raw).
  split.
  - unfold iterator_Key, call, bind at 1. subst raw.
    destruct (ui_Key B (Iterator it) (under w)) as [key s]. simpl.
    erewrite bind_returns by (apply deref_at; exact H). reflexivity.
  - unfold strip. repeat split.
    + intros Hle. apply Nat.leb_le in Hle. rewrite Hle. reflexivity.
    + intros Hlt. apply Nat.leb_gt in Hlt. rewrite Hlt. reflexivity.
    + intros k0 ->. apply strip_prefixed.
Qed.

End Iterators.

Lemma C7_iterator_Key_witness :
  exists k w',
    iterator_Key (mkIterator (B:=memdb.backend) [(sample.k1, sample.v1)] 0)
                 sample.world
    = Returns (k, w')
    /\ k = sample.k1.
Proof.
  destruct (C7_iterator_Key sample.world
              (mkIterator (B:=memdb.backend) [(sample.k1, sample.v1)] 0)
              sample.database eq_refl)
    as (k & Hrun & _ & Hshort & _).
  exists k. eexists. split; [exact Hrun|].
  apply Hshort. vm_compute. lia.
Defined.

(** ** Batches *)

Section Replaying.
Variable W : Writer.
Implicit Types (t : WSt W) (ws : list keyValue).

Lemma replay_cons kv ws t :
  replay W (kv :: ws) t
  = match apply_record W kv t with
    | Panics => Panics
    | Returns (Some err, t') => Returns (Some err, t')
    | Returns (None, t') => replay W ws t'
    end.
Proof. reflexivity. Qed.

Lemma replay_after ws : forall t t1 post,
  applies W ws t t1 -> replay W (ws ++ post) t = replay W post t1.
Proof.
  induction ws as [|kv ws IH]; intros t t1 post H; inversion H; subst.
  - reflexivity.
  - simpl app. rewrite replay_cons.
    match goal with E : apply_record _ _ _ = _ |- _ => rewrite E end.
    apply IH. assumption.
Qed.

Lemma replay_all ws t t1 :
  applies W ws t t1 -> replay W ws t = Returns (None, t1).
Proof.
  intros H. rewrite <- (app_nil_r ws). rewrite (replay_after ws t t1 [] H).
  reflexivity.
Qed.

Lemma replay_stops kv post t e t' :
  apply_record W kv t = Returns (Some e, t') ->
  replay W (kv :: post) t = Returns (Some e, t').
Proof. intros H. rewrite replay_cons, H. reflexivity. Qed.

Lemma replay_clean ws : forall t t1,
  replay W ws t = Returns (None, t1) -> applies W ws t t1.
Proof.
  induction ws as [|kv ws IH]; intros t t1 H.
  - injection H as <-. constructor.
  - rewrite replay_cons in H.
    destruct (apply_record W kv t) as [[[e|] t']|] eqn:E; try discriminate.
    econstructor; [exact E | apply IH, H].
Qed.

Lemma replay_failed ws : forall t e t2,
  replay W ws t = Returns (Some e, t2) ->
  exists pre kv post t1,
    ws = pre ++ kv :: post
    /\ applies W pre t t1
    /\ apply_record W kv t1 = Returns (Some e, t2).
Proof.
  induction ws as [|kv ws IH]; intros t e t2 H.
  - discriminate H.
  - rewrite replay_cons in H.
    destruct (apply_record W kv t) as [[[e'|] t']|] eqn:E; try discriminate.
    + injection H as -> ->. exists [], kv, ws, t.
      repeat split; [constructor | exact E].
    + destruct (IH _ _ _ H) as (pre & kv' & post & t1 & -> & Hpre & Hkv).
      exists (kv :: pre), kv', post, t1.
      repeat split; [econstructor; eassumption | exact Hkv].
Qed.

Lemma replay_last ws kv t t1 :
  applies W ws t t1 -> replay W (ws ++ [kv]) t = apply_record W kv t1.
Proof.
  intros H. rewrite (replay_after ws t t1 [kv] H), replay_cons.
  destruct (apply_record W kv t1) as [[[e|] t']|]; reflexivity.
Qed.
End Replaying.

Section Batches.
Context {B : Backend}.
Implicit Types (w : @World B) (d : @Database B) (b : @batch B).

(** C6. [Replay] applies the log in insertion order, each record with the
    key as recorded: [Delete] for a delete record, [Put] otherwise.  It
    returns nil exactly when every write succeeded.  When a write fails,
    [Replay] returns that error at once: the target is left as the writes
    before it and the failing call made it, whatever follows in the log. *)
Theorem C6_Replay (W : Writer) b (t : WSt W) :
  (forall k v t0,
      apply_record W (KeyValue k v true) t0 = w_Delete W k t0
      /\ apply_record W (KeyValue k v false) t0 = w_Put W k v t0)
  /\ (forall t', applies W (items (writes b)) t t'
                 <-> batch_Replay W b t = Returns (None, t'))
  /\ (forall pre kv post t1 e t2,
         items (writes b) = pre ++ kv :: post ->
         applies W pre t t1 ->
         apply_record W kv t1 = Returns (Some e, t2) ->
         batch_Replay W b t = Returns (Some e, t2))
  /\ (forall e t2,
         batch_Replay W b t = Returns (Some e, t2) ->
         exists pre kv post t1,
           items (writes b) = pre ++ kv :: post
           /\ applies W pre t t1
           /\ apply_record W kv t1 = Returns (Some e, t2)).
Proof.
  unfold batch_Replay. repeat split.
  - apply replay_all.
  - apply replay_clean.
  - intros pre kv post t1 e t2 -> Hpre Hkv.
    rewrite (replay_after W pre t t1 _ Hpre). apply replay_stops, Hkv.
  - apply replay_failed.
Qed.

Lemma wrap64_small (x : Z) :
  (- 2 ^ 63 <= x < 2 ^ 63)%Z -> wrap64 x = x.
Proof. intros H. unfold wrap64. rewrite Z.mod_small; lia. Qed.

(** C9. [Reset] always leaves an empty log.  When the capacity of the log
    exceeded [MaxExcessCapacityFactor] times its length, the log gets a new
    allocation of the old capacity divided by [CapacityReductionFactor];
    otherwise it keeps its allocation, cut to length zero.  The constants
    are those of package database: a positive divisor, and a factor whose
    product with the length is an [int]. *)
Theorem C9_Reset (MaxExcessCapacityFactor CapacityReductionFactor : Z) b w :
  let c := Z.of_nat (kvcap (writes b)) in
  let l := Z.of_nat (length (items (writes b))) in
  (0 < CapacityReductionFactor)%Z ->
  (- 2 ^ 63 <= l * MaxExcessCapacityFactor < 2 ^ 63)%Z ->
  exists b',
    batch_Reset MaxExcessCapacityFactor CapacityReductionFactor b w
    = Returns (b', mkWorld (heap w) (snd (ub_Reset B (Batch b) (under w))))
    /\ items (writes b') = []
    /\ Batch b' = Batch b
    /\ bdb b' = bdb b
    /\ ((l * MaxExcessCapacityFactor < c)%Z ->
        Z.of_nat (kvcap (writes b')) = (c / CapacityReductionFactor)%Z)
    /\ ((c <= l * MaxExcessCapacityFactor)%Z ->
        kvcap (writes b') = kvcap (writes b)).
Proof.
  intros c l HR HF. unfold batch_Reset. fold c l.
  rewrite (wrap64_small _ HF).
  assert (Hq : (0 <= Z.quot c CapacityReductionFactor)%Z)
    by (apply Z.quot_pos; lia).
  destruct (l * MaxExcessCapacityFactor <? c)%Z eqn:E.
  - apply Z.ltb_lt in E.
    exists (mkBatch (Batch b) (bdb b)
              (KVSlice [] (Z.to_nat (Z.quot c CapacityReductionFactor)))).
    split; [|repeat split].
    + unfold make_kv.
      destruct (Z.quot c CapacityReductionFactor <? 0)%Z eqn:E'.
      { apply Z.ltb_lt in E'. lia. }
      unfold bind, ret, call. simpl.
      destruct (ub_Reset B (Batch b) (under w)). reflexivity.
    + intros _. simpl. rewrite Z2Nat.id by exact Hq.
      apply Z.quot_div_nonneg; lia.
    + intros Hle. lia.
  - apply Z.ltb_ge in E.
    exists (mkBatch (Batch b) (bdb b) (KVSlice [] (kvcap (writes b)))).
    split; [|repeat split].
    + unfold bind, ret, call. simpl.
      destruct (ub_Reset B (Batch b) (under w)). reflexivity.
    + intros Hlt. lia.
Qed.

(** C10. [Put] and [Delete] on a batch append their record to the log
    whatever the batch of the wrapped store answers: the answer is
    returned as it is, the record is in the log, and a later [Replay]
    applies it after the records before it. *)
Theorem C10_batch_log (growslice : nat -> nat) b k v w d :
  heap w !! bdb b = Some d ->
  let put := KeyValue k v false in
  let del := KeyValue k [] true in
  let b1 := mkBatch (Batch b) (bdb b) (append growslice (writes b) put) in
  let b2 := mkBatch (Batch b) (bdb b) (append growslice (writes b) del) in
  (exists w',
      batch_Put growslice b k v w
      = Returns ((fst (ub_Put B (Batch b) (dbPrefix d ++ k) v (under w)), b1), w')
      /\ under w' = snd (ub_Put B (Batch b) (dbPrefix d ++ k) v (under w)))
  /\ (exists w',
      batch_Delete growslice b k w
      = Returns ((fst (ub_Delete B (Batch b) (dbPrefix d ++ k) (under w)), b2), w')
      /\ under w' = snd (ub_Delete B (Batch b) (dbPrefix d ++ k) (under w)))
  /\ items (writes b1) = items (writes b) ++ [put]
  /\ items (writes b2) = items (writes b) ++ [del]
  /\ (forall (W : Writer) (t t1 : WSt W),
         applies W (items (writes b)) t t1 ->
         batch_Replay W b1 t = apply_record W put t1
         /\ batch_Replay W b2 t = apply_record W del t1).
Proof.
  intros H put del b1 b2. repeat split.
  - eexists. unfold batch_Put. simpl bdb. simpl Batch.
    pose proof (run_keyed (fun pk => ub_Put B (Batch b) pk v) _ _ k _ H) as R.
    unfold bind in *.
    destruct (prefix (bdb b) k w) as [[pk w1]|]; [|discriminate].
    destruct (call _ w1) as [[err w2]|]; [|discriminate].
    destruct (pool_Put _ _ w2) as [[[] w3]|]; [|discriminate].
    unfold ret in *. injection R as -> ->. split; reflexivity.
  - eexists. unfold batch_Delete. simpl bdb. simpl Batch.
    pose proof (run_keyed (ub_Delete B (Batch b)) _ _ k _ H) as R.
    unfold bind in *.
    destruct (prefix (bdb b) k w) as [[pk w1]|]; [|discriminate].
    destruct (call _ w1) as [[err w2]|]; [|discriminate].
    destruct (pool_Put _ _ w2) as [[[] w3]|]; [|discriminate].
    unfold ret in *. injection R as -> ->. split; reflexivity.
  - unfold batch_Replay. simpl. apply replay_last. assumption.
  - unfold batch_Replay. simpl. apply replay_last. assumption.
Qed.

End Batches.

Lemma C6_Replay_witness :
  batch_Replay (memdb.picky sample.bad) sample.logged []
  = Returns (Some (ErrOther "refused"), memdb.store sample.La sample.v1 []).
Proof.
  apply (proj1 (proj2 (proj2 (C6_Replay (memdb.picky sample.bad) sample.logged [])))
           [KeyValue sample.La sample.v1 false]
           (KeyValue sample.bad sample.v1 false)
           [KeyValue sample.Lb sample.v1 false]
           (memdb.store sample.La sample.v1 [])).
  - reflexivity.
  - econstructor; [reflexivity | constructor].
  - reflexivity.
Defined.

Lemma C9_Reset_witness :
  exists b' w',
    batch_Reset 4 2 sample.logged sample.world = Returns (b', w')
    /\ items (writes b') = []
    /\ kvcap (writes b') = 50.
Proof.
  destruct (C9_Reset 4 2 sample.logged sample.world)
    as (b' & Hrun & Hempty & _ & _ & Hshrink & _).
  - lia.
  - simpl. lia.
  - exists b'. eexists. split; [exact Hrun|]. split; [exact Hempty|].
    apply Nat2Z.inj. rewrite Hshrink by (simpl; lia). reflexivity.
Defined.

Lemma C10_batch_log_witness :
  exists err b' w',
    batch_Put S sample.logged sample.k1 sample.v1 sample.world
    = Returns ((err, b'), w')
    /\ length (items (writes b')) = 4.
Proof.
  destruct (C10_batch_log S sample.logged sample.k1 sample.v1 sample.world
              sample.database eq_refl)
    as ((w' & Hrun & _) & _ & Hlog & _).
  eexists. eexists. exists w'. split; [exact Hrun|].
  rewrite Hlog. reflexivity.
Defined.

(** ** The in-memory store keeps the laws *)

Section MemdbLaws.
Implicit Types (k : bytes) (l : list (bytes * bytes)).

Lemma lookup_remove_eq k l : memdb.lookup k (memdb.remove k l) = None.
Proof.
  unfold memdb.remove. induction l as [|[k' v] l IH]; [reflexivity|].
  rewrite filter_cons. simpl. destruct (decide (k' <> k)) as [Hne|Heq].
  - simpl. rewrite decide_False by exact Hne. exact IH.
  - exact IH.
Qed.

Lemma lookup_remove_ne k k' l :
  k' <> k -> memdb.lookup k' (memdb.remove k l) = memdb.lookup k' l.
Proof.
  intros Hne. unfold memdb.remove.
  induction l as [|[k0 v] l IH]; [reflexivity|].
  rewrite filter_cons. simpl. destruct (decide (k0 <> k)) as [H0|H0].
  - simpl. destruct (decide (k0 = k')); [reflexivity | exact IH].
  - rewrite decide_False; [exact IH|].
    intros ->. apply H0. intros ->. apply Hne. reflexivity.
Qed.

Lemma lookup_store_eq k v l : memdb.lookup k (memdb.store k v l) = Some v.
Proof. unfold memdb.store. simpl. rewrite decide_True; reflexivity. Qed.

Lemma lookup_store_ne k k' v l :
  k' <> k -> memdb.lookup k' (memdb.store k v l) = memdb.lookup k' l.
Proof.
  intros Hne. unfold memdb.store. simpl.
  rewrite decide_False by (intros ->; apply Hne; reflexivity).
  apply lookup_remove_ne, Hne.
Qed.

Lemma memdb_laws : KeyValueStore (B:=memdb.backend) tt memdb.contents.
Proof.
  split; simpl; intros; unfold memdb.contents; simpl.
  - split; reflexivity.
  - split; reflexivity.
  - split; [intros _; apply lookup_store_eq | intros; apply lookup_store_ne; assumption].
  - split; [intros _; apply lookup_remove_eq | intros; apply lookup_remove_ne; assumption].
  - reflexivity.
Qed.
End MemdbLaws.

(** ** Closing *)

Section Closing.
Context {B : Backend}.
Implicit Types (w : @World B) (d : @Database B) (a : addr).

(** C3. After the first successful [Close], at every later point of any
    history, [Has], [Get], [Put], [Delete], [Compact] and [Stat] return
    [ErrClosed] and leave the world, the wrapped store included, as it
    was; so does [Write] on any batch of that Database, which commits
    nothing; and so does another [Close].  Nothing reopens it. *)
Theorem C3_closed_is_permanent
    (MaxExcessCapacityFactor CapacityReductionFactor : Z)
    (growslice : nat -> nat) w0 a h :
  open_at a h w0 ->
  exists w1,
    Close a w0 = Returns (None, w1)
    /\ under w1 = under w0
    /\ forall w,
        history MaxExcessCapacityFactor CapacityReductionFactor growslice w1 w ->
        (forall k, Has a k w = Returns ((false, Some ErrClosed), w))
        /\ (forall k, Get a k w = Returns (([], Some ErrClosed), w))
        /\ (forall k v, Put a k v w = Returns (Some ErrClosed, w))
        /\ (forall k, Delete a k w = Returns (Some ErrClosed, w))
        /\ (forall k1 k2, Compact a k1 k2 w = Returns (Some ErrClosed, w))
        /\ (forall n, Stat a n w = Returns ((EmptyString, Some ErrClosed), w))
        /\ (forall b, bdb b = a -> batch_Write b w = Returns (Some ErrClosed, w))
        /\ Close a w = Returns (Some ErrClosed, w).
Proof.
  intros (d & Ha & Hd).
  exists (set_db a (mkDatabase (dbPrefix d) None (bufferPool d)) w0).
  split; [apply (run_Close_open a d h w0 Ha Hd)|].
  split; [reflexivity|].
  intros w Hw.
  assert (Hc : closed_at a w).
  { eapply closed_evolves; [|eapply history_evolves, Hw].
    eexists. split; [apply lookup_set_db; eapply lookup_lt_Some, Ha|].
    reflexivity. }
  destruct Hc as (d' & Ha' & Hd').
  destruct (run_closed a d' w Ha' Hd')
    as (H1 & H2 & H3 & H4 & H5 & H6 & H7 & H8 & _).
  repeat split; assumption.
Qed.

(** A batch taken while the Database is open: [NewBatch] returns the
    batch of the wrapped store around an empty log. *)
Lemma run_NewBatch_open a d h w :
  heap w !! a = Some d -> db d = Some h ->
  NewBatch a w
  = Returns (mkBatch (fst (u_NewBatch B h (under w))) a (KVSlice [] 0),
             mkWorld (heap w) (snd (u_NewBatch B h (under w)))).
Proof.
  intros H Hd. unfold NewBatch.
  rewrite (bind_returns _ _ _ _ _ (deref_at _ _ _ H)), Hd.
  unfold bind, call, ret. destruct (u_NewBatch B h (under w)). reflexivity.
Qed.

Lemma lookup_fresh (l : list (@Database B)) d : (l ++ [d]) !! length l = Some d.
Proof. apply list_lookup_middle. reflexivity. Qed.

(** C2, at the input where the code departs from it: a Database is
    built, closed, and asked for a batch.  [db.db] is nil by then and
    [db.db.NewBatch()] panics instead of returning a batch. *)
Theorem C2_NewBatch_after_Close_panics w (label : bytes) (h : Store B) :
  bind (New label (Other h)) (fun a =>
    bind (Close a) (fun err => NewBatch a)) w
  = Panics.
Proof.
  unfold New. erewrite bind_returns by apply run_NewNested.
  erewrite bind_returns
    by (eapply run_Close_open; [apply lookup_fresh | reflexivity]).
  eapply run_closed.
  - apply lookup_set_db. simpl. rewrite length_app. simpl. lia.
  - reflexivity.
Qed.

End Closing.

Lemma C3_closed_is_permanent_witness :
  exists w1,
    Close 0 sample.world = Returns (None, w1)
    /\ Get 0 sample.k1 w1 = Returns (([], Some ErrClosed), w1)
    /\ Close 0 w1 = Returns (Some ErrClosed, w1).
Proof.
  destruct (C3_closed_is_permanent 4 2 S sample.world 0 tt)
    as (w1 & Hclose & _ & Hafter).
  - exists sample.database. split; reflexivity.
  - exists w1. split; [exact Hclose|].
    destruct (Hafter w1 (rtc_refl _ _)) as (_ & Hget & _ & _ & _ & _ & _ & Hagain).
    split; [apply Hget | exact Hagain].
Defined.

(** ** Nesting *)

Section Nesting.
Context {B : Backend}.
Implicit Types (w : @World B) (d : @Database B) (a : addr).

Lemma simplePrefix_bytes (p q : bytes) :
  slice_bytes
    (copy_at (length p)
       (copy (make (length p + length q) (length p + length q)) p) q)
  = p ++ q.
Proof.
  rewrite copy_prefix_then_key
    by (unfold cap, make; simpl; rewrite ?repeat_length; lia).
  apply slice_bytes_prefix_key.
Qed.

Lemma run_New_PrefixDB w pa pd (L2 : bytes) :
  heap w !! pa = Some pd ->
  New L2 (PrefixDB pa) w = NewNested (dbPrefix pd ++ L2) (db pd) w.
Proof.
  intros H. unfold New. rewrite (bind_returns _ _ _ _ _ (deref_at _ _ _ H)).
  rewrite simplePrefix_bytes. reflexivity.
Qed.


End Nesting.



(** ** Reads and writes through the prefix *)

Section Isolation.
Context {B : Backend}.
Implicit Types (w : @World B) (d : @Database B) (a : addr).

Lemma ComputeHash256_length (buf : bytes) : length (ComputeHash256 buf) = HashLen.
Proof.
  with_strategy transparent [ComputeHash256]
    (unfold ComputeHash256, SHA256.sum256, SHA256.digest, SHA256.word_bytes).
  reflexivity.
Qed.

(** Two prefixes of one length that differ never yield the same
    physical key. *)
Lemma physical_keys_apart (p1 p2 k1 k2 : bytes) :
  length p1 = length p2 -> p1 <> p2 -> p1 ++ k1 <> p2 ++ k2.
Proof.
  intros Hlen Hne E. apply Hne.
  destruct (app_inj_1 p1 p2 k1 k2 Hlen E) as [Hp _]. exact Hp.
Qed.

Variable h : Store B.
Variable contents : St B -> bytes -> option bytes.
Hypothesis laws : KeyValueStore h contents.

Lemma Get_reads a d k w :
  heap w !! a = Some d -> db d = Some h ->
  exists w',
    Get a k w
    = Returns (match contents (under w) (physical_key d k) with
               | Some v => (v, None)
               | None => ([], Some ErrNotFound)
               end, w')
    /\ heap w' = <[a := after_key d k]> (heap w)
    /\ contents (under w') = contents (under w).
Proof.
  intros H Hd. rewrite (run_Get a d h k w H Hd).
  destruct (kv_Get h contents laws (physical_key d k) (under w)) as [-> Hc].
  eexists. split; [reflexivity|]. split; [reflexivity | exact Hc].
Qed.

Lemma Has_reads a d k w :
  heap w !! a = Some d -> db d = Some h ->
  exists w',
    Has a k w
    = Returns ((bool_decide (is_Some (contents (under w) (physical_key d k))),
                None), w')
    /\ heap w' = <[a := after_key d k]> (heap w)
    /\ contents (under w') = contents (under w).
Proof.
  intros H Hd. rewrite (run_Has a d h k w H Hd).
  destruct (kv_Has h contents laws (physical_key d k) (under w)) as [-> Hc].
  eexists. split; [reflexivity|]. split; [reflexivity | exact Hc].
Qed.

(** Reads through a Database see only the contents at its physical
    keys. *)
Lemma reads_agree a d w w1 :
  heap w !! a = Some d -> heap w1 !! a = Some d -> db d = Some h ->
  (forall k, contents (under w1) (physical_key d k)
             = contents (under w) (physical_key d k)) ->
  forall k,
    (exists r wa wb, Get a k w = Returns (r, wa) /\ Get a k w1 = Returns (r, wb))
    /\ (exists r wa wb, Has a k w = Returns (r, wa) /\ Has a k w1 = Returns (r, wb)).
Proof.
  intros H H1 Hd Hsame k. split.
  - destruct (Get_reads a d k w H Hd) as (wa & Ea & _).
    destruct (Get_reads a d k w1 H1 Hd) as (wb & Eb & _).
    rewrite Hsame in Eb. eauto.
  - destruct (Has_reads a d k w H Hd) as (wa & Ea & _).
    destruct (Has_reads a d k w1 H1 Hd) as (wb & Eb & _).
    rewrite Hsame in Eb. eauto.
Qed.

(** C4, as the code has it.  Two Databases over the same store whose
    derived prefixes differ: a [Put] or a [Delete] through the first leaves
    the result of every [Has] and [Get] through the second as it was; a key
    absent under the second stays absent whatever is put under the first.
    That the labels differ is not enough, since [New] over a Database
    hashes the label together with the prefix of that Database. *)
Theorem C4_isolation w a1 a2 d1 d2 (L1 L2 : bytes) :
  heap w !! a1 = Some d1 -> heap w !! a2 = Some d2 ->
  db d1 = Some h -> db d2 = Some h ->
  dbPrefix d1 = ComputeHash256 L1 -> dbPrefix d2 = ComputeHash256 L2 ->
  ComputeHash256 L1 <> ComputeHash256 L2 ->
  forall k v,
    exists err w1 err' w1',
      Put a1 k v w = Returns (err, w1)
      /\ Delete a1 k w = Returns (err', w1')
      /\ (forall k',
            (exists r wa wb,
                Get a2 k' w = Returns (r, wa) /\ Get a2 k' w1 = Returns (r, wb))
            /\ (exists r wa wb,
                Has a2 k' w = Returns (r, wa) /\ Has a2 k' w1 = Returns (r, wb)))
      /\ (forall k',
            (exists r wa wb,
                Get a2 k' w = Returns (r, wa) /\ Get a2 k' w1' = Returns (r, wb))
            /\ (exists r wa wb,
                Has a2 k' w = Returns (r, wa) /\ Has a2 k' w1' = Returns (r, wb)))
      /\ (contents (under w) (physical_key d2 k) = None ->
          exists wb wc,
            Has a2 k w1 = Returns ((false, None), wb)
            /\ Get a2 k w1 = Returns (([], Some ErrNotFound), wc)).
Proof.
  intros H1 H2 Hd1 Hd2 Hp1 Hp2 Hne k v.
  assert (Ha : a1 <> a2).
  { intros ->. apply Hne. rewrite <- Hp1, <- Hp2. congruence. }
  assert (Hapart : forall k', physical_key d2 k' <> physical_key d1 k).
  { intros k'. unfold physical_key. rewrite Hp1, Hp2.
    apply physical_keys_apart.
    - rewrite !ComputeHash256_length. reflexivity.
    - intros E. apply Hne. symmetry. exact E. }
  do 4 eexists.
  split; [apply (run_Put a1 d1 h k v w H1 Hd1)|].
  split; [apply (run_Delete a1 d1 h k w H1 Hd1)|].
  assert (Hput : forall k',
             contents (snd (u_Put B h (physical_key d1 k) v (under w)))
                      (physical_key d2 k')
             = contents (under w) (physical_key d2 k')).
  { intros k'. apply (kv_Put h contents laws), Hapart. }
  assert (Hdel : forall k',
             contents (snd (u_Delete B h (physical_key d1 k) (under w)))
                      (physical_key d2 k')
             = contents (under w) (physical_key d2 k')).
  { intros k'. apply (kv_Delete h contents laws), Hapart. }
  assert (Hkeep : forall s,
             heap (mkWorld (<[a1 := after_key d1 k]> (heap w)) s) !! a2 = Some d2).
  { intros s. simpl. rewrite list_lookup_insert_ne by exact Ha. exact H2. }
  split; [|split].
  - apply (reads_agree a2 d2 w _ H2 (Hkeep _) Hd2). exact Hput.
  - apply (reads_agree a2 d2 w _ H2 (Hkeep _) Hd2). exact Hdel.
  - intros Hnone.
    pose (s1 := snd (u_Put B h (physical_key d1 k) v (under w))).
    destruct (Has_reads a2 d2 k _ (Hkeep s1) Hd2) as (wb & Eb & _).
    destruct (Get_reads a2 d2 k _ (Hkeep s1) Hd2) as (wc & Ec & _).
    subst s1. cbn [under] in Eb, Ec. rewrite Hput, Hnone in Eb, Ec.
    exists wb, wc. split; [exact Eb | exact Ec].
Qed.

(** *** Round trip *)




End Isolation.

Lemma sample_prefixes_differ : ComputeHash256 sample.La <> ComputeHash256 sample.Lb.
Proof. intros E. vm_compute in E. discriminate E. Qed.

Lemma C4_isolation_witness :
  exists err w1 wb,
    Put 0 sample.k1 sample.v1 sample.shared = Returns (err, w1)
    /\ Has 1 sample.k1 w1 = Returns ((false, None), wb).
Proof.
  destruct (C4_isolation (B:=memdb.backend) tt memdb.contents memdb_laws sample.shared 0 1
              _ _ sample.La sample.Lb eq_refl eq_refl eq_refl eq_refl
              eq_refl eq_refl sample_prefixes_differ sample.k1 sample.v1)
    as (err & w1 & _ & _ & Hput & _ & _ & _ & Habsent).
  destruct (Habsent eq_refl) as (wb & _ & Hhas & _).
  exists err, w1, wb. split; [exact Hput | exact Hhas].
Defined.

(** C4, as the specification has it, fails.  Label "b" given to [New] over
    the Database labelled "a", and label hash("a") || "b" given to [New] over
    the store itself: the labels differ, both Databases wrap the same store,
    and they have the same prefix.  The key "k" is absent under the second
    label, is put under the first, and is then found under the second. *)
Lemma C4_counterexample :
  bind (New sample.La sample.raw) (fun a0 =>
    bind (New sample.Lb (PrefixDB a0)) (fun a1 =>
      bind (New sample.Lflat sample.raw) (fun a2 =>
        ret (a0, a1, a2)))) sample.nothing
  = Returns ((0, 1, 2), sample.twins)
  /\ sample.Lb <> sample.Lflat
  /\ (exists w0, Get 2 sample.k1 sample.twins
                 = Returns (([], Some ErrNotFound), w0))
  /\ (exists w w1 w2,
        Put 1 sample.k1 sample.v1 sample.twins = Returns (None, w)
        /\ Get 2 sample.k1 w = Returns ((sample.v1, None), w1)
        /\ Has 2 sample.k1 w = Returns ((true, None), w2)).
Proof.
  split; [|split; [|split]].
  - erewrite bind_returns by reflexivity.
    erewrite bind_returns
      by (rewrite (run_New_PrefixDB _ 0 sample.inner) by reflexivity;
          reflexivity).
    erewrite bind_returns by reflexivity.
    reflexivity.
  - intros E. apply (f_equal length) in E. unfold sample.Lflat in E.
    rewrite length_app, ComputeHash256_length in E. discriminate E.
  - eexists.
    rewrite (run_Get (B:=memdb.backend) 2 sample.nested tt) by reflexivity.
    reflexivity.
  - do 3 eexists. split; [|split].
    + rewrite (run_Put (B:=memdb.backend) 1 sample.nested tt) by reflexivity.
      reflexivity.
    + rewrite (run_Get (B:=memdb.backend) 2 sample.nested tt) by reflexivity.
      cbn [u_Get u_Put memdb.backend fst snd memdb.pairs under].
      rewrite lookup_store_eq. reflexivity.
    + rewrite (run_Has (B:=memdb.backend) 2 sample.nested tt) by reflexivity.
      cbn [u_Has u_Put memdb.backend fst snd memdb.pairs under].
      rewrite lookup_store_eq. reflexivity.
Qed.


(** ** Invariants of the heap over any history *)

Section Keeping.
Context {B : Backend}.
Implicit Types (w : @World B) (d : @Database B) (a : addr).

Variable P : @Database B -> Prop.
Hypothesis P_put : forall d buf,
  len buf = 0 -> P d -> P (with_pool d (buf :: bufferPool d)).
Hypothesis P_prefix : forall d k, P d -> P (with_pool d (pool_after_prefix d k)).
Hypothesis P_close : forall d, P d -> P (mkDatabase (dbPrefix d) None (bufferPool d)).
Hypothesis P_new : forall p t, P (mkDatabase (ComputeHash256 p) t []).

Lemma every_set_db a d w : every P w -> P d -> every P (set_db a d w).
Proof.
  intros Hw Hd a0 d0 H0. destruct (decide (a = a0)) as [->|Hne].
  - unfold set_db in H0. simpl in H0.
    destruct (decide (a0 < length (heap w))) as [Hlt|Hge].
    + rewrite list_lookup_insert_eq in H0 by exact Hlt.
      injection H0 as <-. exact Hd.
    + rewrite lookup_ge_None_2 in H0 by (rewrite length_insert; lia).
      discriminate H0.
  - rewrite lookup_set_db_ne in H0 by exact Hne. exact (Hw a0 d0 H0).
Qed.

Lemma keeps_ret {A} (x : A) : keeps P (ret x).
Proof. intros w r w' H Hw. injection H as _ <-. exact Hw. Qed.

Lemma keeps_panic {A} : keeps P (@panic B A).
Proof. intros w r w' H. discriminate H. Qed.

Lemma keeps_bind {A C} (m : @M B A) (k : A -> @M B C) :
  keeps P m -> (forall x, keeps P (k x)) -> keeps P (bind m k).
Proof.
  intros Hm Hk w r w' H Hw. unfold bind in H.
  destruct (m w) as [[x w1]|] eqn:E; [|discriminate].
  eapply Hk; [exact H|]. eapply Hm; [exact E | exact Hw].
Qed.

Lemma keeps_deref a : keeps P (deref a).
Proof.
  intros w r w' H Hw. unfold deref in H.
  destruct (heap w !! a); [|discriminate]. injection H as _ <-. exact Hw.
Qed.

Lemma keeps_call {A} (f : St B -> A * St B) : keeps P (call f).
Proof.
  intros w r w' H Hw. unfold call in H. destruct (f (under w)) as [x s].
  injection H as _ <-. exact Hw.
Qed.

Lemma keeps_NewNested p t : keeps P (NewNested p t).
Proof.
  intros w r w' H Hw. unfold NewNested, alloc in H. injection H as _ <-.
  intros a d Ha. simpl in Ha.
  apply lookup_app_Some in Ha as [Ha|(_ & Ha)].
  - exact (Hw a d Ha).
  - apply list_lookup_singleton_Some in Ha as [_ <-]. apply P_new.
Qed.

Lemma keeps_pool_Put a buf : len buf = 0 -> keeps P (pool_Put a buf).
Proof.
  intros Hz w r w' H Hw. unfold pool_Put, bind, deref in H.
  destruct (heap w !! a) as [d|] eqn:E; [|discriminate].
  unfold assign in H. injection H as _ <-.
  apply (every_set_db a _ w Hw). apply (P_put d buf Hz), (Hw a d E).
Qed.

Lemma keeps_prefix a k : keeps P (prefix a k).
Proof.
  intros w r w' H Hw.
  destruct (heap w !! a) as [d|] eqn:E.
  - rewrite (run_prefix a d k w E) in H. injection H as _ <-.
    apply every_set_db; [exact Hw|]. apply P_prefix, (Hw a d E).
  - unfold prefix, pool_Get in H.
    rewrite (bind_panics _ _ _ (bind_panics _ _ _ (deref_dangling a w E))) in H.
    discriminate H.
Qed.

Lemma keeps_Close a : keeps P (Close a).
Proof.
  intros w r w' H Hw. unfold Close, bind, deref in H.
  destruct (heap w !! a) as [d|] eqn:E; [|discriminate].
  destruct (db d).
  - unfold assign, ret in H. injection H as _ <-.
    apply (every_set_db a _ w Hw). apply P_close, (Hw a d E).
  - injection H as _ <-. exact Hw.
Qed.

Ltac keep :=
  repeat first
    [ apply keeps_ret
    | apply keeps_panic
    | apply keeps_deref
    | apply keeps_call
    | apply keeps_prefix
    | apply keeps_NewNested
    | apply keeps_pool_Put; reflexivity
    | apply keeps_bind; [|intros ?]
    | match goal with
      | |- keeps _ (match ?x with _ => _ end) => destruct x
      | |- keeps _ (if ?x then _ else _) => destruct x
      end ].

Lemma step_keeps F R g w w' : step F R g w w' -> every P w -> every P w'.
Proof.
  destruct 1 as [p t r w w' H|p t r w w' H|a k r w w' H|a k r w w' H
                |a k v r w w' H|a k r w w' H|a n r w w' H|a k1 k2 r w w' H
                |a r w w' H|a r w w' H|a k1 k2 r w w' H|b k v r w w' H
                |b k r w w' H|b r w w' H|b r w w' H|it r w w' H|w s];
    try (revert H; match goal with |- ?m _ = _ -> _ =>
           let K := fresh in
           assert (K : keeps P m); [|exact (K _ _ _)] end).
  - keep.
  - unfold New. keep.
  - unfold Has. keep.
  - unfold Get. keep.
  - unfold Put. keep.
  - unfold Delete. keep.
  - unfold Stat. keep.
  - unfold Compact. keep.
  - apply keeps_Close.
  - unfold NewBatch. keep.
  - unfold NewIteratorWithStartAndPrefix. keep.
  - unfold batch_Put. keep.
  - unfold batch_Delete. keep.
  - unfold batch_Write. keep.
  - unfold batch_Reset, make_kv. keep.
  - unfold iterator_Key. keep.
  - intros Hw a d Ha. exact (Hw a d Ha).
Qed.

Lemma history_keeps F R g w w' : history F R g w w' -> every P w -> every P w'.
Proof.
  induction 1 as [w|w1 w2 w3 Hs _ IH]; [auto|].
  intros Hw. apply IH. eapply step_keeps; eassumption.
Qed.

End Keeping.

Section HeapInvariants.
Context {B : Backend}.
Implicit Types (w : @World B) (d : @Database B) (a : addr).

Lemma taken_from_pool d buf :
  buf ∈ (taken d).1 :: (taken d).2 ->
  buf ∈ bufferPool d \/ buf = make 0 defaultBufCap.
Proof.
  unfold taken. destruct (bufferPool d) as [|b0 rest]; simpl; intros H.
  - apply list_elem_of_singleton in H. auto.
  - auto.
Qed.

Lemma pool_after_prefix_from d k buf :
  buf ∈ pool_after_prefix d k ->
  buf ∈ bufferPool d \/ buf = make 0 defaultBufCap.
Proof.
  unfold pool_after_prefix. intros H. apply taken_from_pool.
  destruct (_ <=? _); [right|]; exact H.
Qed.

Lemma pool_zeroed_after_prefix d k :
  pool_zeroed d -> pool_zeroed (with_pool d (pool_after_prefix d k)).
Proof.
  unfold pool_zeroed. rewrite !Forall_forall. intros Hd buf Hin. simpl in Hin.
  destruct (pool_after_prefix_from d k buf Hin) as [H| ->]; [auto | reflexivity].
Qed.

(** X1. The invariant written in the struct, "all []byte in this Pool
    have length 0", is kept by every call of the package: if it holds of
    every Database of a world, it holds of every Database of every world
    that comes after it. *)
Theorem X1_pool_buffers_have_length_zero
    (MaxExcessCapacityFactor CapacityReductionFactor : Z)
    (growslice : nat -> nat) w w' :
  history MaxExcessCapacityFactor CapacityReductionFactor growslice w w' ->
  every pool_zeroed w ->
  every pool_zeroed w'.
Proof.
  apply history_keeps.
  - intros d buf Hz Hd. constructor; assumption.
  - apply pool_zeroed_after_prefix.
  - intros d Hd. exact Hd.
  - intros p t. constructor.
Qed.

(** X2. The prefix of a Database is the 32 bytes of a hash and is never
    written again: whatever the history, a world whose Databases all have
    32-byte prefixes leads only to such worlds, and every Database already
    there is still there with the prefix it had. *)
Theorem X2_prefix_is_fixed
    (MaxExcessCapacityFactor CapacityReductionFactor : Z)
    (growslice : nat -> nat) w w' :
  history MaxExcessCapacityFactor CapacityReductionFactor growslice w w' ->
  every prefix_sized w ->
  every prefix_sized w'
  /\ forall a d, heap w !! a = Some d ->
       exists d', heap w' !! a = Some d' /\ dbPrefix d' = dbPrefix d.
Proof.
  intros Hh Hw. split.
  - revert Hh Hw. apply history_keeps.
    + intros d buf _ Hd. exact Hd.
    + intros d k Hd. exact Hd.
    + intros d Hd. exact Hd.
    + intros p t. apply ComputeHash256_length.
  - intros a d Ha.
    destruct (history_evolves _ _ _ w w' Hh a d Ha) as (d' & Ha' & Hp & _).
    exists d'. split; assumption.
Qed.

End HeapInvariants.

Lemma X1_pool_buffers_have_length_zero_witness :
  every pool_zeroed
    (mkWorld (B:=memdb.backend)
       (<[0 := after_key sample.cramped sample.k1]> (heap sample.tight))
       (snd (u_Put memdb.backend tt (physical_key sample.cramped sample.k1)
               sample.v1 (under sample.tight)))).
Proof.
  apply (X1_pool_buffers_have_length_zero 4 2 S sample.tight).
  - apply rtc_once.
    apply (step_Put 4 2 S 0 sample.k1 sample.v1 None).
    apply (run_Put (B:=memdb.backend) 0 sample.cramped tt); reflexivity.
  - intros [|a] d H; [|destruct a; discriminate H].
    injection H as <-. repeat constructor.
Defined.

Lemma X2_prefix_is_fixed_witness :
  every prefix_sized
    (mkWorld (B:=memdb.backend)
       (heap sample.world
          ++ [mkDatabase (B:=memdb.backend) (ComputeHash256 sample.La) (Some tt) []])
       memdb.empty).
Proof.
  apply (X2_prefix_is_fixed 4 2 S sample.world).
  - apply rtc_once.
    apply (step_New 4 2 S sample.La sample.raw 1). reflexivity.
  - intros [|a] d H; [|destruct a; discriminate H].
    injection H as <-. apply ComputeHash256_length.
Defined.

(** ** Ranges: iterators and compaction *)

Section Ranges.
Context {B : Backend}.
Implicit Types (w : @World B) (d : @Database B) (a : addr).

(** Two keys built in a row, as [Compact] and the iterator factory do:
    neither buffer goes back to the pool. *)
Lemma run_prefix_twice {A} a d k1 k2 (f : slice -> slice -> @M B A) w :
  heap w !! a = Some d ->
  bind (prefix a k1) (fun p1 => bind (prefix a k2) (fun p2 => f p1 p2)) w
  = f (key_buffer d k1)
      (key_buffer (with_pool d (pool_after_prefix d k1)) k2)
      (set_db a (with_pool d
                   (pool_after_prefix
                      (with_pool d (pool_after_prefix d k1)) k2)) w).
Proof.
  intros H. pose proof (lookup_lt_Some _ _ _ H) as Hlt.
  rewrite (bind_returns _ _ _ _ _ (run_prefix a d k1 w H)).
  erewrite bind_returns
    by (apply run_prefix, lookup_set_db, Hlt).
  rewrite set_db_twice. reflexivity.
Qed.

Lemma two_keys_from_pool d k1 k2 buf :
  buf ∈ pool_after_prefix (with_pool d (pool_after_prefix d k1)) k2 ->
  buf ∈ bufferPool d \/ buf = make 0 defaultBufCap.
Proof.
  intros H. apply pool_after_prefix_from in H as [H| ->]; [|auto].
  simpl in H. apply pool_after_prefix_from in H. exact H.
Qed.

(** X3. The iterator factories.  On a closed Database they return the
    [nodb] iterator carrying [ErrClosed] and touch nothing.  On an open one
    the wrapped store is asked for an iterator with both bounds behind the
    prefix, [dbPrefix || start] and [dbPrefix || prefix], and that iterator
    comes back wrapped with its Database; absent bounds become the bare
    prefix, so [NewIterator] scans exactly the keys under [dbPrefix]. *)
Theorem X3_iterator_bounds w a d :
  heap w !! a = Some d ->
  (db d = None ->
   forall start pfx,
     NewIteratorWithStartAndPrefix a start pfx w
     = Returns (NodbIterator (Some ErrClosed), w))
  /\ (forall h, db d = Some h ->
      let ask start pfx :=
        u_NewIteratorWithStartAndPrefix B h
          (dbPrefix d ++ start) (dbPrefix d ++ pfx) (under w) in
      (forall start pfx, exists w',
          NewIteratorWithStartAndPrefix a start pfx w
          = Returns (PrefixIterator (mkIterator (fst (ask start pfx)) a), w')
          /\ under w' = snd (ask start pfx))
      /\ (exists w',
          NewIterator a w
          = Returns (PrefixIterator
                       (mkIterator
                          (fst (u_NewIteratorWithStartAndPrefix B h
                                  (dbPrefix d) (dbPrefix d) (under w))) a), w'))
      /\ (forall start, exists w',
          NewIteratorWithStart a start w
          = Returns (PrefixIterator
                       (mkIterator
                          (fst (u_NewIteratorWithStartAndPrefix B h
                                  (dbPrefix d ++ start) (dbPrefix d) (under w))) a),
                     w'))
      /\ (forall pfx, exists w',
          NewIteratorWithPrefix a pfx w
          = Returns (PrefixIterator
                       (mkIterator
                          (fst (u_NewIteratorWithStartAndPrefix B h
                                  (dbPrefix d) (dbPrefix d ++ pfx) (under w))) a),
                     w'))).
Proof.
  intros H. split.
  - intros Hd start pfx. apply (run_closed a d w H Hd).
  - intros h Hd ask.
    assert (Hrun : forall start pfx, exists w',
               NewIteratorWithStartAndPrefix a start pfx w
               = Returns (PrefixIterator (mkIterator (fst (ask start pfx)) a), w')
               /\ under w' = snd (ask start pfx)).
    { intros start pfx. unfold NewIteratorWithStartAndPrefix.
      rewrite (bind_returns _ _ _ _ _ (deref_at _ _ _ H)), Hd.
      rewrite (run_prefix_twice a d start pfx _ w H).
      rewrite !key_buffer_bytes. unfold physical_key. simpl dbPrefix.
      unfold bind, call, ret. simpl under. fold (ask start pfx).
      destruct (ask start pfx) as [it s]. eexists. split; reflexivity. }
    split; [exact Hrun|].
    unfold NewIterator, NewIteratorWithStart, NewIteratorWithPrefix.
    repeat split; intros.
    + destruct (Hrun [] []) as (w' & E & _). subst ask. simpl in E.
      rewrite !app_nil_r in E. eauto.
    + destruct (Hrun start []) as (w' & E & _). subst ask. simpl in E.
      rewrite !app_nil_r in E. eauto.
    + destruct (Hrun [] pfx) as (w' & E & _). subst ask. simpl in E.
      rewrite !app_nil_r in E. eauto.
Qed.

(** X4. [Compact] on an open Database asks the wrapped store to compact
    from [dbPrefix || start] to [dbPrefix || limit] and returns its error
    unchanged.  The two key buffers are not handed back: what the pool holds
    afterwards was in it before or is a fresh buffer of the default
    capacity. *)
Theorem X4_Compact_bounds w a d h start limit :
  heap w !! a = Some d -> db d = Some h ->
  let answer :=
    u_Compact B h (dbPrefix d ++ start) (dbPrefix d ++ limit) (under w) in
  exists pool,
    Compact a start limit w
    = Returns (fst answer,
               mkWorld (<[a := with_pool d pool]> (heap w)) (snd answer))
    /\ forall buf, buf ∈ pool ->
         buf ∈ bufferPool d \/ buf = make 0 defaultBufCap.
Proof.
  intros H Hd answer.
  exists (pool_after_prefix (with_pool d (pool_after_prefix d start)) limit).
  split.
  - unfold Compact.
    rewrite (bind_returns _ _ _ _ _ (deref_at _ _ _ H)), Hd.
    rewrite (run_prefix_twice a d start limit _ w H).
    rewrite !key_buffer_bytes. unfold physical_key. simpl dbPrefix.
    unfold call. simpl under. fold answer.
    destruct answer as [err s]. reflexivity.
  - intros buf. apply two_keys_from_pool.
Qed.

End Ranges.

Lemma X3_iterator_bounds_witness :
  exists it w',
    NewIterator 0 sample.world = Returns (PrefixIterator it, w')
    /\ idb it = 0.
Proof.
  destruct (proj2 (X3_iterator_bounds sample.world 0 sample.database eq_refl)
              tt eq_refl) as (_ & (w' & Hrun) & _).
  eexists. exists w'. split; [exact Hrun | reflexivity].
Defined.

Lemma X4_Compact_bounds_witness :
  exists w', Compact 0 sample.La sample.Lb sample.world = Returns (None, w').
Proof.
  destruct (X4_Compact_bounds sample.world 0 sample.database tt
              sample.La sample.Lb eq_refl eq_refl) as (pool & Hrun & _).
  eexists. exact Hrun.
Defined.

(** ** Point operations: what goes to the wrapped store, what comes back *)

Section Delegation.
Context {B : Backend}.
Implicit Types (w : @World B) (d : @Database B) (a : addr).

(** X5. On an open Database [Has], [Get] and [Delete] make exactly one
    call to the wrapped store, with the key [dbPrefix || key], and return
    what it returns, the error included; [Stat] passes its argument
    unprefixed.  The world changes by that call and by the pool alone. *)
Theorem X5_delegation w a d h :
  heap w !! a = Some d -> db d = Some h ->
  (forall k,
      Has a k w
      = Returns (fst (u_Has B h (dbPrefix d ++ k) (under w)),
                 mkWorld (<[a := after_key d k]> (heap w))
                         (snd (u_Has B h (dbPrefix d ++ k) (under w)))))
  /\ (forall k,
      Get a k w
      = Returns (fst (u_Get B h (dbPrefix d ++ k) (under w)),
                 mkWorld (<[a := after_key d k]> (heap w))
                         (snd (u_Get B h (dbPrefix d ++ k) (under w)))))
  /\ (forall k,
      Delete a k w
      = Returns (fst (u_Delete B h (dbPrefix d ++ k) (under w)),
                 mkWorld (<[a := after_key d k]> (heap w))
                         (snd (u_Delete B h (dbPrefix d ++ k) (under w)))))
  /\ (forall n,
      Stat a n w
      = Returns (fst (u_Stat B h n (under w)),
                 mkWorld (heap w) (snd (u_Stat B h n (under w)))))
  /\ (forall k, dbPrefix (after_key d k) = dbPrefix d /\ db (after_key d k) = Some h).
Proof.
  intros H Hd. repeat split.
  - intros k. apply (run_Has a d h k w H Hd).
  - intros k. apply (run_Get a d h k w H Hd).
  - intros k. apply (run_Delete a d h k w H Hd).
  - intros n. apply (run_Stat a d h n w H Hd).
  - exact Hd.
Qed.

End Delegation.

Lemma X5_delegation_witness :
  Get 0 sample.k1 sample.world
  = Returns (([], Some ErrNotFound),
             mkWorld (B:=memdb.backend)
               (<[0 := after_key sample.database sample.k1]> (heap sample.world))
               memdb.empty).
Proof.
  exact (proj1 (proj2 (X5_delegation sample.world 0 sample.database tt
                         eq_refl eq_refl)) sample.k1).
Defined.

(** ** A session on a batch, and its replay *)

Section Sessions.
Context {B : Backend}.
Implicit Types (w : @World B) (d : @Database B) (b : @batch B).

Lemma run_batch_Put (growslice : nat -> nat) b k v w d :
  heap w !! bdb b = Some d ->
  batch_Put growslice b k v w
  = Returns ((fst (ub_Put B (Batch b) (physical_key d k) v (under w)),
              mkBatch (Batch b) (bdb b)
                      (append growslice (writes b) (KeyValue k v false))),
             mkWorld (<[bdb b := after_key d k]> (heap w))
                     (snd (ub_Put B (Batch b) (physical_key d k) v (under w)))).
Proof.
  intros H. unfold batch_Put. simpl bdb. simpl Batch.
  pose proof (run_keyed (fun pk => ub_Put B (Batch b) pk v) _ _ k _ H) as R.
  unfold bind in *.
  destruct (prefix (bdb b) k w) as [[pk w1]|]; [|discriminate].
  destruct (call _ w1) as [[err w2]|]; [|discriminate].
  destruct (pool_Put _ _ w2) as [[[] w3]|]; [|discriminate].
  unfold ret in *. injection R as -> ->. reflexivity.
Qed.

Lemma run_batch_Delete (growslice : nat -> nat) b k w d :
  heap w !! bdb b = Some d ->
  batch_Delete growslice b k w
  = Returns ((fst (ub_Delete B (Batch b) (physical_key d k) (under w)),
              mkBatch (Batch b) (bdb b)
                      (append growslice (writes b) (KeyValue k [] true))),
             mkWorld (<[bdb b := after_key d k]> (heap w))
                     (snd (ub_Delete B (Batch b) (physical_key d k) (under w)))).
Proof.
  intros H. unfold batch_Delete. simpl bdb. simpl Batch.
  pose proof (run_keyed (ub_Delete B (Batch b)) _ _ k _ H) as R.
  unfold bind in *.
  destruct (prefix (bdb b) k w) as [[pk w1]|]; [|discriminate].
  destruct (call _ w1) as [[err w2]|]; [|discriminate].
  destruct (pool_Put _ _ w2) as [[[] w3]|]; [|discriminate].
  unfold ret in *. injection R as -> ->. reflexivity.
Qed.

Lemma replay_records (W : Writer) cs : forall t,
  replay W (map record_of cs) t = direct W cs t.
Proof.
  induction cs as [|c cs IH]; intros t; [reflexivity|].
  simpl map. rewrite replay_cons. simpl direct.
  replace (apply_record W (record_of c) t) with (direct_call W c t)
    by (destruct c; reflexivity).
  destruct (direct_call W c t) as [[[e|] t']|]; [reflexivity| apply IH | reflexivity].
Qed.

(** X7. Any session of [Put] and [Delete] calls on a batch returns, with
    the log grown by exactly one record per call, in the order of the
    calls, whatever the batch of the wrapped store answered to each.
    Replaying a batch that started empty is therefore the same as making
    those calls on the target directly, in that order, up to the first one
    that fails. *)
Theorem X7_batch_session (growslice : nat -> nat) cs :
  forall b w d,
    heap w !! bdb b = Some d ->
    exists b' w',
      batch_calls growslice cs b w = Returns (b', w')
      /\ items (writes b') = items (writes b) ++ map record_of cs
      /\ bdb b' = bdb b
      /\ Batch b' = Batch b
      /\ (items (writes b) = [] ->
          forall (W : Writer) (t : WSt W),
            batch_Replay W b' t = direct W cs t).
Proof.
  assert (Hmain : forall b w d,
             heap w !! bdb b = Some d ->
             exists b' w',
               batch_calls growslice cs b w = Returns (b', w')
               /\ items (writes b') = items (writes b) ++ map record_of cs
               /\ bdb b' = bdb b
               /\ Batch b' = Batch b).
  { induction cs as [|c cs IH]; intros b w d H.
    - exists b, w. rewrite app_nil_r. auto.
    - pose proof (lookup_lt_Some _ _ _ H) as Hlt.
      simpl batch_calls.
      destruct c as [k v|k].
      + rewrite (bind_returns _ _ _ _ _ (run_batch_Put growslice b k v w d H)).
        cbn [snd].
        edestruct IH as (b' & w' & E & Hlog & Hdb & Hub);
          [|exists b', w'; split; [exact E|]].
        { cbn [bdb heap]. apply list_lookup_insert_eq, Hlt. }
        rewrite Hlog, Hdb, Hub. simpl. rewrite <- app_assoc. auto.
      + rewrite (bind_returns _ _ _ _ _ (run_batch_Delete growslice b k w d H)).
        cbn [snd].
        edestruct IH as (b' & w' & E & Hlog & Hdb & Hub);
          [|exists b', w'; split; [exact E|]].
        { cbn [bdb heap]. apply list_lookup_insert_eq, Hlt. }
        rewrite Hlog, Hdb, Hub. simpl. rewrite <- app_assoc. auto. }
  intros b w d H. destruct (Hmain b w d H) as (b' & w' & E & Hlog & Hdb & Hub).
  exists b', w'. repeat split; try assumption.
  intros Hempty W t. unfold batch_Replay. rewrite Hlog, Hempty. simpl.
  apply replay_records.
Qed.

End Sessions.

Lemma X7_batch_session_witness :
  exists b' w',
    batch_calls S [BPut sample.La sample.v1; BDelete sample.Lb]
                (mkBatch (B:=memdb.backend) 0 0 (KVSlice [] 0)) sample.world
    = Returns (b', w')
    /\ batch_Replay memdb.writer b' []
       = Returns (None, memdb.remove sample.Lb (memdb.store sample.La sample.v1 [])).
Proof.
  destruct (X7_batch_session S [BPut sample.La sample.v1; BDelete sample.Lb]
              (mkBatch (B:=memdb.backend) 0 0 (KVSlice [] 0)) sample.world
              sample.database eq_refl)
    as (b' & w' & Hrun & _ & _ & _ & Hreplay).
  exists b', w'. split; [exact Hrun|].
  rewrite (Hreplay eq_refl memdb.writer []). reflexivity.
Defined.

(** ** Nesting and lifetimes *)

Section Lifetimes.
Context {B : Backend}.
Implicit Types (w : @World B) (d : @Database B) (a : addr).

Lemma run_New_Nil w (L : bytes) :
  New L Nil w = NewNested L None w.
Proof. reflexivity. Qed.

(** X8. [New] over a nil store, or over a Database that is already
    closed, returns a Database that is closed from the start: its guarded
    methods answer [ErrClosed] without any call to a store, and [NewBatch]
    on it panics. *)
Theorem X8_New_over_closed w (L : bytes) target :
  target = Nil
  \/ (exists pa pd, target = PrefixDB pa /\ heap w !! pa = Some pd /\ db pd = None) ->
  exists a w',
    New L target w = Returns (a, w')
    /\ under w' = under w
    /\ closed_at a w'
    /\ (forall k, Has a k w' = Returns ((false, Some ErrClosed), w'))
    /\ (forall k, Get a k w' = Returns (([], Some ErrClosed), w'))
    /\ (forall k v, Put a k v w' = Returns (Some ErrClosed, w'))
    /\ (forall k, Delete a k w' = Returns (Some ErrClosed, w'))
    /\ Close a w' = Returns (Some ErrClosed, w')
    /\ NewBatch a w' = Panics.
Proof.
  intros Ht.
  assert (E : exists p, New L target w = NewNested p None w).
  { destruct Ht as [->|(pa & pd & -> & H & Hd)].
    - exists L. reflexivity.
    - exists (dbPrefix pd ++ L). rewrite (run_New_PrefixDB w pa pd L H), Hd.
      reflexivity. }
  destruct E as (p & E). rewrite E, run_NewNested.
  eexists _, _. split; [reflexivity|]. split; [reflexivity|].
  assert (Hnew : heap (mkWorld (heap w ++ [mkDatabase (ComputeHash256 p) None []])
                               (under w)) !! length (heap w)
                 = Some (mkDatabase (B:=B) (ComputeHash256 p) None []))
    by apply lookup_fresh.
  split; [eexists; split; [exact Hnew | reflexivity]|].
  destruct (run_closed _ _ _ Hnew eq_refl)
    as (H1 & H2 & H3 & H4 & _ & _ & H7 & _ & _ & H10).
  repeat split; assumption.
Qed.

(** X9. [New] over an open Database takes the store it wraps and keeps no
    tie to the Database itself: the two are distinct and have separate
    lifetimes.  Closing the inner one leaves the outer one open on the
    store, and closing the outer one leaves the inner one open. *)
Theorem X9_separate_lifetimes w pa pd h (L : bytes) :
  heap w !! pa = Some pd -> db pd = Some h ->
  exists a w1,
    New L (PrefixDB pa) w = Returns (a, w1)
    /\ a <> pa
    /\ open_at a h w1
    /\ open_at pa h w1
    /\ (exists w2, Close pa w1 = Returns (None, w2)
                   /\ closed_at pa w2 /\ open_at a h w2)
    /\ (exists w3, Close a w1 = Returns (None, w3)
                   /\ closed_at a w3 /\ open_at pa h w3).
Proof.
  intros H Hd. pose proof (lookup_lt_Some _ _ _ H) as Hlt.
  rewrite (run_New_PrefixDB w pa pd L H), Hd, run_NewNested.
  set (d := mkDatabase (B:=B) (ComputeHash256 (dbPrefix pd ++ L)) (Some h) []).
  set (w1 := mkWorld (heap w ++ [d]) (under w)).
  assert (Ha : heap w1 !! length (heap w) = Some d) by apply lookup_fresh.
  assert (Hpa : heap w1 !! pa = Some pd)
    by (unfold w1; simpl; rewrite lookup_app_l by exact Hlt; exact H).
  assert (Hne : length (heap w) <> pa) by lia.
  exists (length (heap w)), w1. split; [reflexivity|]. split; [exact Hne|].
  split; [exists d; auto|]. split; [exists pd; auto|].
  split.
  - eexists. split; [apply (run_Close_open pa pd h w1 Hpa Hd)|]. split.
    + eexists. split; [apply lookup_set_db; eapply lookup_lt_Some, Hpa|].
      reflexivity.
    + exists d. split; [|reflexivity].
      rewrite lookup_set_db_ne by (intros E; apply Hne; symmetry; exact E).
      exact Ha.
  - eexists. split; [apply (run_Close_open _ d h w1 Ha eq_refl)|]. split.
    + eexists. split; [apply lookup_set_db; eapply lookup_lt_Some, Ha|].
      reflexivity.
    + exists pd. split; [|exact Hd].
      rewrite lookup_set_db_ne by exact Hne. exact Hpa.
Qed.

(** X10. Prefixing loses nothing: the key that [prefix] builds is turned
    back into the caller's key by the stripping of [Key], and two keys of
    one Database that differ are built into different physical keys. *)
Theorem X10_prefix_then_strip w a d k :
  heap w !! a = Some d ->
  exists pk w',
    prefix a k w = Returns (pk, w')
    /\ strip (dbPrefix d) (slice_bytes pk) = k
    /\ forall k2 pk2 w2,
         prefix a k2 w = Returns (pk2, w2) ->
         slice_bytes pk2 = slice_bytes pk -> k2 = k.
Proof.
  intros H. eexists _, _. split; [apply (run_prefix a d k w H)|].
  rewrite key_buffer_bytes. split; [apply strip_prefixed|].
  intros k2 pk2 w2 E2 Hsame.
  rewrite (run_prefix a d k2 w H) in E2. injection E2 as <- _.
  rewrite key_buffer_bytes in Hsame. unfold physical_key in Hsame.
  eapply app_inv_head, Hsame.
Qed.

End Lifetimes.

Lemma X8_New_over_closed_witness :
  exists a w',
    New sample.La (Nil (B:=memdb.backend)) sample.nothing = Returns (a, w')
    /\ NewBatch a w' = Panics.
Proof.
  destruct (X8_New_over_closed sample.nothing sample.La Nil (or_introl eq_refl))
    as (a & w' & Hnew & _ & _ & _ & _ & _ & _ & _ & Hpanic).
  exists a, w'. split; [exact Hnew | exact Hpanic].
Defined.

Lemma X9_separate_lifetimes_witness :
  exists a w1 w2,
    New sample.Lb (PrefixDB 0) sample.world = Returns (a, w1)
    /\ Close 0 w1 = Returns (None, w2)
    /\ open_at (B:=memdb.backend) a tt w2.
Proof.
  destruct (X9_separate_lifetimes sample.world 0 sample.database tt sample.Lb
              eq_refl eq_refl)
    as (a & w1 & Hnew & _ & _ & _ & (w2 & Hclose & _ & Hopen) & _).
  exists a, w1, w2. split; [exact Hnew|]. split; [exact Hclose | exact Hopen].
Defined.

Lemma X10_prefix_then_strip_witness :
  exists pk w',
    prefix 0 sample.k1 sample.tight = Returns (pk, w')
    /\ strip (ComputeHash256 sample.chains) (slice_bytes pk) = sample.k1.
Proof.
  destruct (X10_prefix_then_strip sample.tight 0 sample.cramped sample.k1 eq_refl)
    as (pk & w' & Hrun & Hstrip & _).
  exists pk, w'. split; [exact Hrun | exact Hstrip].
Defined.

(** ** Batches and iterators of a closed Database *)

Section AfterClose.
Context {B : Backend}.
Implicit Types (w : @World B) (d : @Database B) (b : @batch B).

(** X11. A batch does not look at the state of its Database before
    [Write]: on a closed Database [Put] and [Delete] still log the record
    and still reach the batch of the wrapped store with the prefixed key,
    and return its answer.  Only [Write] refuses, with [ErrClosed], and it
    makes no call at all. *)
Theorem X11_batch_of_closed_store (growslice : nat -> nat) b k v w :
  closed_at (bdb b) w ->
  exists d err b1 w1 err' b2 w2,
    heap w !! bdb b = Some d
    /\ batch_Put growslice b k v w = Returns ((err, b1), w1)
    /\ err = fst (ub_Put B (Batch b) (dbPrefix d ++ k) v (under w))
    /\ under w1 = snd (ub_Put B (Batch b) (dbPrefix d ++ k) v (under w))
    /\ items (writes b1) = items (writes b) ++ [KeyValue k v false]
    /\ batch_Delete growslice b k w = Returns ((err', b2), w2)
    /\ err' = fst (ub_Delete B (Batch b) (dbPrefix d ++ k) (under w))
    /\ items (writes b2) = items (writes b) ++ [KeyValue k [] true]
    /\ batch_Write b1 w1 = Returns (Some ErrClosed, w1)
    /\ batch_Write b2 w2 = Returns (Some ErrClosed, w2).
Proof.
  intros (d & H & Hd). pose proof (lookup_lt_Some _ _ _ H) as Hlt.
  exists d. do 6 eexists.
  split; [exact H|].
  split; [apply (run_batch_Put growslice b k v w d H)|].
  split; [reflexivity|]. split; [reflexivity|]. split; [reflexivity|].
  split; [apply (run_batch_Delete growslice b k w d H)|].
  split; [reflexivity|]. split; [reflexivity|].
  split.
  - eapply run_closed;
      [cbn [heap bdb]; apply list_lookup_insert_eq, Hlt | exact Hd | reflexivity].
  - eapply run_closed;
      [cbn [heap bdb]; apply list_lookup_insert_eq, Hlt | exact Hd | reflexivity].
Qed.

(** X12. [Key] does not look at the state of the Database either: an
    iterator taken before [Close] strips the same prefix after it. *)
Theorem X12_iterator_of_closed_store w it d h :
  heap w !! idb it = Some d -> db d = Some h ->
  exists w1 k w2 w3,
    Close (idb it) w = Returns (None, w1)
    /\ iterator_Key it w = Returns (k, w2)
    /\ iterator_Key it w1 = Returns (k, w3)
    /\ k = strip (dbPrefix d) (fst (ui_Key B (Iterator it) (under w))).
Proof.
  intros H Hd. pose proof (lookup_lt_Some _ _ _ H) as Hlt.
  assert (Hkey : forall w0 d0,
             heap w0 !! idb it = Some d0 ->
             iterator_Key it w0
             = Returns (strip (dbPrefix d0) (fst (ui_Key B (Iterator it) (under w0))),
                        mkWorld (heap w0) (snd (ui_Key B (Iterator it) (under w0))))).
  { intros w0 d0 H0. unfold iterator_Key, call, bind at 1.
    destruct (ui_Key B (Iterator it) (under w0)) as [key s]. simpl.
    erewrite bind_returns by (apply deref_at; exact H0). reflexivity. }
  do 4 eexists.
  split; [apply (run_Close_open _ d h w H Hd)|].
  split; [apply (Hkey w d H)|].
  split; [|reflexivity].
  rewrite (Hkey _ _ (lookup_set_db (idb it) _ w Hlt)). reflexivity.
Qed.

End AfterClose.

Lemma X11_batch_of_closed_store_witness :
  exists err b1 w1,
    batch_Put S sample.logged sample.k1 sample.v1
      (set_db 0 (mkDatabase (B:=memdb.backend) (ComputeHash256 sample.chains) None [])
              sample.world)
    = Returns ((err, b1), w1)
    /\ batch_Write b1 w1 = Returns (Some ErrClosed, w1).
Proof.
  destruct (X11_batch_of_closed_store S sample.logged sample.k1 sample.v1
              (set_db 0 (mkDatabase (B:=memdb.backend)
                           (ComputeHash256 sample.chains) None [])
                      sample.world))
    as (d & err & b1 & w1 & _ & _ & _ & _ & Hput & _ & _ & _ & _ & _ & _ & Hwrite & _).
  - eexists. split; reflexivity.
  - exists err, b1, w1. split; [exact Hput | exact Hwrite].
Defined.

Lemma X12_iterator_of_closed_store_witness :
  exists w1 k w3,
    Close 0 sample.world = Returns (None, w1)
    /\ iterator_Key (mkIterator (B:=memdb.backend) [(sample.k1, sample.v1)] 0) w1
       = Returns (k, w3).
Proof.
  destruct (X12_iterator_of_closed_store sample.world
              (mkIterator (B:=memdb.backend) [(sample.k1, sample.v1)] 0)
              sample.database tt eq_refl eq_refl)
    as (w1 & k & _ & w3 & Hclose & _ & Hkey & _).
  exists w1, k, w3. split; [exact Hclose | exact Hkey].
Defined.
